(** * golink: the file-backed link store

    A shallow embedding of [internal/link/link.go],
    [internal/storage/json_storage.go] and the handlers of
    [internal/server/server.go], together with a model of the parts
    of the Go standard library the store relies on ([unicode/utf8], [time],
    [encoding/json], [os]).

    Go strings and byte slices are [string]s (sequences of 8-bit [ascii]
    characters); Go's [int] values that occur here are small and are kept
    in [Z]; the map [map[string]*link.Link] is a [gmap] from strings to
    optional records, a nil pointer being [None].  The store never writes
    through a [*Link], so a pointer is modelled by the record it leads
    to and there is no heap.

    The library model follows Go 1.20 and later ([time.Time] is written
    and read through [appendStrictRFC3339] and [parseStrictRFC3339]).
    Of [NewJSONStorage] and [watchFile] the model has what they do to
    the store and the disk: the answers of [filepath.Abs],
    [os.MkdirAll] and the fsnotify watcher are given to them, and the
    watcher loop runs on the list of what its channels deliver.  Of
    [internal/server/server.go] the model has the three handlers, as
    functions from the store to the calls they make on the response
    writer; the HTTP server itself is outside the model. *)

From Stdlib Require Import ZArith Lia Ascii String List Bool.
From stdpp Require Import base option list gmap strings pretty sorting.

Local Open Scope string_scope.
Local Open Scope Z_scope.

(** ** Bytes *)

Definition byte_val (c : ascii) : Z := Z.of_N (N_of_ascii c).
Definition byte_of (z : Z) : ascii := ascii_of_N (Z.to_N z).

Definition in_range (lo hi : Z) (c : ascii) : bool :=
  (lo <=? byte_val c) && (byte_val c <=? hi).

Definition isDigit (c : ascii) : bool := in_range 48 57 c.

(** [span p s] splits [s] after its longest prefix of characters
    satisfying [p]. *)
Fixpoint span (p : ascii -> bool) (s : string) : string * string :=
  match s with
  | String c s' =>
      if p c then let '(a, b) := span p s' in (String c a, b) else (EmptyString, s)
  | EmptyString => (EmptyString, EmptyString)
  end.

(** ** unicode/utf8 *)
Module utf8.

Definition RuneError : Z := 65533.
Definition RuneSelf : Z := 128.

Definition cont (c : ascii) : bool := in_range 128 191 c.

(** Length of the well-formed multi-byte encoding that starts with the
    byte [c0] followed by [s]; [0%nat] when there is none (then
    [DecodeRune] answers [(RuneError, 1)]).  The second byte ranges are
    those of Go's [acceptRanges] table: no overlong forms, no
    surrogates, nothing above U+10FFFF. *)
Definition seqLen (c0 : ascii) (s : string) : nat :=
  match s with
  | String c1 s1 =>
      if in_range 194 223 c0 then (if cont c1 then 2 else 0)%nat
      else
        match s1 with
        | String c2 s2 =>
            if (in_range 224 224 c0 && in_range 160 191 c1
                || in_range 225 236 c0 && cont c1
                || in_range 237 237 c0 && in_range 128 159 c1
                || in_range 238 239 c0 && cont c1) then
              (if cont c2 then 3 else 0)%nat
            else
              match s2 with
              | String c3 _ =>
                  if (in_range 240 240 c0 && in_range 144 191 c1
                      || in_range 241 243 c0 && cont c1
                      || in_range 244 244 c0 && in_range 128 143 c1)
                     && cont c2 && cont c3 then 4%nat else 0%nat
              | EmptyString => 0%nat
              end
        | EmptyString => 0%nat
        end
  | EmptyString => 0%nat
  end.

(** [ValidString]: the string is a sequence of well-formed encodings. *)
Fixpoint ValidString (s : string) : bool :=
  match s with
  | EmptyString => true
  | String c0 s1 =>
      if byte_val c0 <? RuneSelf then ValidString s1
      else
        match seqLen c0 s1, s1 with
        | 2%nat, String _ s2 => ValidString s2
        | 3%nat, String _ (String _ s3) => ValidString s3
        | 4%nat, String _ (String _ (String _ s4)) => ValidString s4
        | _, _ => false
        end
  end.

(** [EncodeRune] / [AppendRune]: out-of-range runes and surrogates are
    written as U+FFFD. *)
Definition EncodeRune (r : Z) : string :=
  let tx (x : Z) := byte_of (Z.lor 128 (Z.land x 63)) in
  let three (r : Z) :=
    String (byte_of (Z.lor 224 (Z.shiftr r 12)))
      (String (tx (Z.shiftr r 6)) (String (tx r) EmptyString)) in
  if (0 <=? r) && (r <=? 127) then String (byte_of r) EmptyString
  else if (0 <=? r) && (r <=? 2047) then
    String (byte_of (Z.lor 192 (Z.shiftr r 6))) (String (tx r) EmptyString)
  else if (r <? 0) || (1114111 <? r) || ((55296 <=? r) && (r <=? 57343)) then
    three RuneError
  else if r <=? 65535 then three r
  else
    String (byte_of (Z.lor 240 (Z.shiftr r 18)))
      (String (tx (Z.shiftr r 12))
         (String (tx (Z.shiftr r 6)) (String (tx r) EmptyString))).

End utf8.

(** ** unicode/utf16 *)
Module utf16.

Definition IsSurrogate (r : Z) : bool := (55296 <=? r) && (r <? 57344).

Definition DecodeRune (r1 r2 : Z) : Z :=
  if (55296 <=? r1) && (r1 <? 56320) && (56320 <=? r2) && (r2 <? 57344)
  then Z.lor (Z.shiftl (r1 - 55296) 10) (r2 - 56320) + 65536
  else utf8.RuneError.

End utf16.

(** ** Results and errors *)

Inductive error : Type :=
| errors_New (text : string)
| SyntaxError
| UnmarshalError
| MarshalerError (text : string)
| PathError (op path : string).

#[global] Instance error_eq_dec : EqDecision error.
Proof. solve_decision. Defined.

Inductive result (A : Type) : Type :=
| Ok (a : A)
| Err (e : error).
Arguments Ok {A} a.
Arguments Err {A} e.

Definition rbind {A B} (r : result A) (k : A -> result B) : result B :=
  match r with Ok a => k a | Err e => Err e end.
Definition rmap {A B} (f : A -> B) (r : result A) : result B :=
  match r with Ok a => Ok (f a) | Err e => Err e end.

(** ** time

    A [Time] is an instant (seconds and nanoseconds since the Unix epoch),
    the offset east of UTC, in seconds, that its location gives at that
    instant, and the monotonic clock reading that [time.Now] attaches.
    Location names and time-zone rules are not part of the model. *)
Module time.

Record Time : Type := mkTime {
  unixSec : Z;
  nsec : Z;
  offset : Z;
  mono : option Z
}.

#[global] Instance Time_eq_dec : EqDecision Time.
Proof. solve_decision. Defined.

(** [Time{}]: January 1, year 1, 00:00:00 UTC. *)
Definition zero : Time :=
  {| unixSec := -62135596800; nsec := 0; offset := 0; mono := None |}.

(** [t.Equal(u)]: the same instant, whatever the location. *)
Definition Equal (t u : Time) : bool :=
  match mono t, mono u with
  | Some a, Some b => a =? b
  | _, _ => (unixSec t =? unixSec u) && (nsec t =? nsec u)
  end.

(** [t.Round(0)]: the time stripped of its monotonic clock reading. *)
Definition Round0 (t : Time) : Time :=
  {| unixSec := unixSec t; nsec := nsec t; offset := offset t; mono := None |}.

Definition isLeap (year : Z) : bool :=
  (year mod 4 =? 0) && (negb (year mod 100 =? 0) || (year mod 400 =? 0)).

Definition daysIn (month year : Z) : Z :=
  if month =? 2 then (if isLeap year then 29 else 28)
  else if (month =? 4) || (month =? 6) || (month =? 9) || (month =? 11)
       then 30 else 31.

(** Proleptic Gregorian calendar: the date (year, month, day) of the day
    that lies [days] days after 1970-01-01, and back.  Both directions
    count in 400-year eras of 146097 days whose years start on March 1. *)
Definition civil (days : Z) : Z * Z * Z :=
  let z := days + 719468 in
  let era := z / 146097 in
  let doe := z - era * 146097 in
  let yoe := (doe - doe / 1460 + doe / 36524 - doe / 146096) / 365 in
  let doy := doe - (365 * yoe + yoe / 4 - yoe / 100) in
  let mp := (5 * doy + 2) / 153 in
  let d := doy - (153 * mp + 2) / 5 + 1 in
  let m := if mp <? 10 then mp + 3 else mp - 9 in
  (if m <=? 2 then yoe + era * 400 + 1 else yoe + era * 400, m, d).

Definition daysSinceEpoch (year month day : Z) : Z :=
  let y := if month <=? 2 then year - 1 else year in
  let era := y / 400 in
  let yoe := y - era * 400 in
  let mp := if 2 <? month then month - 3 else month + 9 in
  let doy := (153 * mp + 2) / 5 + day - 1 in
  era * 146097 + (yoe * 365 + yoe / 4 - yoe / 100 + doy) - 719468.

(** [Date(year, month, day, hour, min, sec, nsec, UTC)] for arguments
    already in range. *)
Definition Date (year month day hour min sec ns : Z) : Time :=
  {| unixSec := daysSinceEpoch year month day * 86400 + hour * 3600 + min * 60 + sec;
     nsec := ns; offset := 0; mono := None |}.

(** Seconds of the local wall clock since the epoch ([t.abs()]). *)
Definition abs (t : Time) : Z := unixSec t + offset t.
Definition date (t : Time) : Z * Z * Z := civil (abs t / 86400).
Definition Year (t : Time) : Z := (date t).1.1.
Definition clock (t : Time) : Z * Z * Z :=
  let s := abs t mod 86400 in (s / 3600, s mod 3600 / 60, s mod 60).

Definition digit (n : Z) : ascii := byte_of (48 + n).

(** [appendInt(b, x, width)] for [0 <= x < 10^width]. *)
Fixpoint appendInt (width : nat) (x : Z) : string :=
  match width with
  | O => EmptyString
  | S w => appendInt w (x / 10) +:+ String (digit (x mod 10)) EmptyString
  end.

(** Removal of the trailing zeros of a digit string. *)
Fixpoint trimZeros (s : string) : string :=
  match s with
  | EmptyString => EmptyString
  | String c s' =>
      match trimZeros s' with
      | EmptyString => if Ascii.eqb c "0" then EmptyString else String c EmptyString
      | t => String c t
      end
  end.

(** [appendNano] with the layout [.999999999]. *)
Definition appendNano (ns : Z) : string :=
  if ns =? 0 then EmptyString else String "." (trimZeros (appendInt 9 ns)).

Definition appendZone (off : Z) : string :=
  if off =? 0 then "Z"
  else
    let zone := Z.quot off 60 in
    String (if zone <? 0 then "-"%char else "+"%char)
      (appendInt 2 (Z.abs zone / 60) +:+ ":" +:+ appendInt 2 (Z.abs zone mod 60)).

(** [t.appendFormatRFC3339(b, true)] *)
Definition appendFormatRFC3339 (t : Time) : string :=
  let '(year, month, day) := date t in
  let '(hour, min, sec) := clock t in
  appendInt 4 year +:+ "-" +:+ appendInt 2 month +:+ "-" +:+ appendInt 2 day
    +:+ "T"
    +:+ appendInt 2 hour +:+ ":" +:+ appendInt 2 min +:+ ":" +:+ appendInt 2 sec
    +:+ appendNano (nsec t) +:+ appendZone (offset t).

(** [t.appendStrictRFC3339(b)]: Go formats first and then inspects the
    text: a year that is not four digits wide, or a zone hour above 23,
    is an error.  The same two tests are made here on the numbers. *)
Definition appendStrictRFC3339 (t : Time) : result string :=
  if (Year t <? 0) || (9999 <? Year t) then
    Err (MarshalerError "year outside of range [0,9999]")
  else if negb (offset t =? 0) && (24 <=? Z.abs (Z.quot (offset t) 60) / 60) then
    Err (MarshalerError "timezone hour outside of range [0,23]")
  else Ok (appendFormatRFC3339 t).

Fixpoint atoi (s : string) (x : Z) : option Z :=
  match s with
  | EmptyString => Some x
  | String c s' => if isDigit c then atoi s' (x * 10 + (byte_val c - 48)) else None
  end.

(** The local [parseUint] of [parseRFC3339]: a decimal number within
    [lo, hi]. *)
Definition parseUint (s : string) (lo hi : Z) : option Z :=
  x ← atoi s 0; if (x <? lo) || (hi <? x) then None else Some x.

Fixpoint sdrop (n : nat) (s : string) : string :=
  match n, s with
  | S n', String _ s' => sdrop n' s'
  | _, _ => s
  end.

(** [parseNanoseconds] on the digits after the period: at most nine are
    read, and the number is scaled to nanoseconds. *)
Definition parseNanoseconds (digits : string) : Z :=
  let ds := substring 0 9 digits in
  default 0 (atoi ds 0) * 10 ^ (9 - Z.of_nat (String.length ds)).

(** [s[i] == c] *)
Definition at_ (c : ascii) (s : string) (i : nat) : bool :=
  match get i s with Some x => Ascii.eqb x c | None => false end.

(** [parseRFC3339(s, Local)]: the strict parser for the fixed layout
    [2006-01-02T15:04:05[.fraction](Z|±07:00)]. *)
Definition parseRFC3339 (s : string) : option Time :=
  if (String.length s <? 19)%nat then None else
  year ← parseUint (substring 0 4 s) 0 9999;
  month ← parseUint (substring 5 2 s) 1 12;
  day ← parseUint (substring 8 2 s) 1 (daysIn month year);
  hour ← parseUint (substring 11 2 s) 0 23;
  min ← parseUint (substring 14 2 s) 0 59;
  sec ← parseUint (substring 17 2 s) 0 59;
  if negb (at_ "-" s 4 && at_ "-" s 7 && at_ "T" s 10 && at_ ":" s 13 && at_ ":" s 16)
  then None else
  let s := sdrop 19 s in
  let '(ns, s) :=
    match s with
    | String "." (String c r) =>
        if isDigit c then
          let '(ds, r') := span isDigit (String c r) in (parseNanoseconds ds, r')
        else (0, s)
    | _ => (0, s)
    end in
  let t := Date year month day hour min sec ns in
  if String.eqb s "Z" then Some t else
  if negb (String.length s =? 6)%nat then None else
  hr ← parseUint (substring 1 2 s) 0 23;
  mm ← parseUint (substring 4 2 s) 0 59;
  if negb ((at_ "-" s 0 || at_ "+" s 0) && at_ ":" s 3) then None else
  let zoneOffset := (hr * 60 + mm) * 60 in
  let zoneOffset := if at_ "-" s 0 then - zoneOffset else zoneOffset in
  Some {| unixSec := unixSec t - zoneOffset; nsec := ns;
          offset := zoneOffset; mono := None |}.

Section Parse.
(** [Parse(RFC3339, s)], the lenient layout-driven parser that
    [parseStrictRFC3339] falls back to when the strict one refuses the
    text.  It is left open: nothing is assumed about it. *)
Variable Parse : string -> result Time.

Definition parseStrictRFC3339 (b : string) : result Time :=
  match parseRFC3339 b with
  | Some t => Ok t
  | None => Parse b
  end.
End Parse.

End time.

(** ** internal/link *)
Module link.

Record Link : Type := mkLink {
  Alias : string;
  URL : string;
  Description : string;
  Category : string;
  CreatedAt : time.Time;
  UpdatedAt : time.Time
}.

#[global] Instance Link_eq_dec : EqDecision Link.
Proof. solve_decision. Defined.

(** [NewLink]; [now] is the reading [time.Now()] returns. *)
Definition NewLink (now : time.Time) (alias url description category : string) : Link :=
  {| Alias := alias;
     URL := url;
     Description := description;
     Category := category;
     CreatedAt := now;
     UpdatedAt := now |}.

End link.

(** ** Go maps

    A map value is a reference: [nil_map] is the nil map, which reads as
    empty, refuses assignment with a run-time panic, and is what JSON
    [null] decodes to. *)
Inductive gomap (V : Type) : Type :=
| nil_map
| mk_map (m : gmap string V).
Arguments nil_map {V}.
Arguments mk_map {V} m.

Definition entries {V} (g : gomap V) : gmap string V :=
  match g with nil_map => ∅ | mk_map m => m end.

(** ** encoding/json *)
Module json.
Import link.

Definition dq : ascii := "034".
Definition backslash : ascii := "092".
Definition quoted (raw : string) : string :=
  String dq (raw +:+ String dq EmptyString).

(** A parsed JSON text.  String values and member names keep the text
    between their quotes as it is written ([raw]), escapes included:
    [time.Time]'s [UnmarshalJSON] reads it without unquoting. *)
#[warnings="-register-all"]
Inductive Value : Type :=
| VNull
| VBool (b : bool)
| VNumber (lit : string)
| VString (raw : string)
| VArray (elems : list Value)
| VObject (members : list (string * Value)).

(** *** Encoding strings ([appendString] with [escapeHTML] set) *)

Definition hex (n : Z) : ascii :=
  if n <? 10 then byte_of (48 + n) else byte_of (87 + n).

(** [htmlSafeSet]: the ASCII characters written as they are. *)
Definition htmlSafe (c : ascii) : bool :=
  in_range 32 127 c
  && negb (Ascii.eqb c dq || Ascii.eqb c backslash
           || Ascii.eqb c "<" || Ascii.eqb c ">" || Ascii.eqb c "&").

Definition escapeByte (c : ascii) : string :=
  if htmlSafe c then String c EmptyString
  else if Ascii.eqb c dq || Ascii.eqb c backslash then String backslash (String c EmptyString)
  else if Ascii.eqb c "008" then String backslash "b"
  else if Ascii.eqb c "012" then String backslash "f"
  else if Ascii.eqb c "010" then String backslash "n"
  else if Ascii.eqb c "013" then String backslash "r"
  else if Ascii.eqb c "009" then String backslash "t"
  else String backslash
         ("u00" +:+ String (hex (Z.shiftr (byte_val c) 4))
                      (String (hex (Z.land (byte_val c) 15)) EmptyString)).

(** The text [appendString] writes between the quotes.  Bytes that are
    no well-formed UTF-8 become the escape of U+FFFD; U+2028 and U+2029
    (E2 80 A8, E2 80 A9) are written as escapes. *)
Fixpoint appendString (s : string) : string :=
  match s with
  | EmptyString => EmptyString
  | String c0 s1 =>
      if byte_val c0 <? utf8.RuneSelf then escapeByte c0 +:+ appendString s1
      else
        match utf8.seqLen c0 s1, s1 with
        | 2%nat, String c1 s2 => String c0 (String c1 (appendString s2))
        | 3%nat, String c1 (String c2 s3) =>
            if Ascii.eqb c0 "226" && Ascii.eqb c1 "128"
               && (Ascii.eqb c2 "168" || Ascii.eqb c2 "169")
            then String backslash
                   ("u202" +:+ String (hex (Z.land (byte_val c2) 15)) (appendString s3))
            else String c0 (String c1 (String c2 (appendString s3)))
        | 4%nat, String c1 (String c2 (String c3 s4)) =>
            String c0 (String c1 (String c2 (String c3 (appendString s4))))
        | _, _ => String backslash ("ufffd" +:+ appendString s1)
        end
  end.

(** *** Decoding strings ([unquote]) *)

Definition hexVal (c : ascii) : option Z :=
  if in_range 48 57 c then Some (byte_val c - 48)
  else if in_range 97 102 c then Some (byte_val c - 87)
  else if in_range 65 70 c then Some (byte_val c - 55)
  else None.

(** [getu4] on the four characters after [\u]. *)
Definition getu4 (h1 h2 h3 h4 : ascii) : option Z :=
  a ← hexVal h1; b ← hexVal h2; c ← hexVal h3; d ← hexVal h4;
  Some (((a * 16 + b) * 16 + c) * 16 + d).

Definition unescape (e : ascii) : option ascii :=
  if Ascii.eqb e dq || Ascii.eqb e backslash || Ascii.eqb e "/" || Ascii.eqb e "'"
  then Some e
  else if Ascii.eqb e "b" then Some "008"%char
  else if Ascii.eqb e "f" then Some "012"%char
  else if Ascii.eqb e "n" then Some "010"%char
  else if Ascii.eqb e "r" then Some "013"%char
  else if Ascii.eqb e "t" then Some "009"%char
  else None.

(** [unquoteBytes] on the text between the quotes.  A well-formed
    multi-byte sequence is decoded and encoded again by Go, which gives
    the same bytes: it is copied here. *)
Fixpoint unquote (s : string) : option string :=
  match s with
  | EmptyString => Some EmptyString
  | String c0 s1 =>
      if Ascii.eqb c0 backslash then
        match s1 with
        | EmptyString => None
        | String e s2 =>
            match unescape e with
            | Some c => String c <$> unquote s2
            | None =>
                if Ascii.eqb e "u" then
                  match s2 with
                  | String h1 (String h2 (String h3 (String h4 s6))) =>
                      rr ← getu4 h1 h2 h3 h4;
                      if utf16.IsSurrogate rr then
                        let bad := (append (utf8.EncodeRune utf8.RuneError)) <$> unquote s6 in
                        match s6 with
                        | String b (String u (String g1 (String g2 (String g3 (String g4 s12))))) =>
                            if Ascii.eqb b backslash && Ascii.eqb u "u" then
                              match getu4 g1 g2 g3 g4 with
                              | Some rr1 =>
                                  let dec := utf16.DecodeRune rr rr1 in
                                  if dec =? utf8.RuneError then bad
                                  else (append (utf8.EncodeRune dec)) <$> unquote s12
                              | None => bad
                              end
                            else bad
                        | _ => bad
                        end
                      else (append (utf8.EncodeRune rr)) <$> unquote s6
                  | _ => None
                  end
                else None
            end
        end
      else if Ascii.eqb c0 dq || (byte_val c0 <? 32) then None
      else if byte_val c0 <? utf8.RuneSelf then String c0 <$> unquote s1
      else
        match utf8.seqLen c0 s1, s1 with
        | 2%nat, String c1 s2 => (fun r => String c0 (String c1 r)) <$> unquote s2
        | 3%nat, String c1 (String c2 s3) =>
            (fun r => String c0 (String c1 (String c2 r))) <$> unquote s3
        | 4%nat, String c1 (String c2 (String c3 s4)) =>
            (fun r => String c0 (String c1 (String c2 (String c3 r)))) <$> unquote s4
        | _, _ => (append (utf8.EncodeRune utf8.RuneError)) <$> unquote s1
        end
  end.

(** *** The scanner *)

Definition isSpace (c : ascii) : bool :=
  Ascii.eqb c " " || Ascii.eqb c "009" || Ascii.eqb c "013" || Ascii.eqb c "010".

Fixpoint skipSpace (s : string) : string :=
  match s with
  | String c s' => if isSpace c then skipSpace s' else s
  | EmptyString => s
  end.

Definition isHex (c : ascii) : bool :=
  in_range 48 57 c || in_range 97 102 c || in_range 65 70 c.

Definition isEscape (e : ascii) : bool :=
  Ascii.eqb e "b" || Ascii.eqb e "f" || Ascii.eqb e "n" || Ascii.eqb e "r"
  || Ascii.eqb e "t" || Ascii.eqb e backslash || Ascii.eqb e "/" || Ascii.eqb e dq.

Definition cons1 (c : ascii) (r : string * string) : string * string :=
  (String c r.1, r.2).

(** The states [stateInString], [stateInStringEsc] and
    [stateInStringEscU...]: the text up to the closing quote, and what
    follows it. *)
Fixpoint scanString (s : string) : option (string * string) :=
  match s with
  | EmptyString => None
  | String c s1 =>
      if Ascii.eqb c dq then Some (EmptyString, s1)
      else if Ascii.eqb c backslash then
        match s1 with
        | String e s2 =>
            if isEscape e then cons1 c <$> (cons1 e <$> scanString s2)
            else if Ascii.eqb e "u" then
              match s2 with
              | String h1 (String h2 (String h3 (String h4 s6))) =>
                  if isHex h1 && isHex h2 && isHex h3 && isHex h4 then
                    (fun r => cons1 c (cons1 e (cons1 h1 (cons1 h2 (cons1 h3 (cons1 h4 r))))))
                      <$> scanString s6
                  else None
              | _ => None
              end
            else None
        | EmptyString => None
        end
      else if byte_val c <? 32 then None
      else cons1 c <$> scanString s1
  end.

(** The number states: an optional minus sign; a zero, or a non-zero
    digit and more digits; optionally a period and digits; optionally
    an exponent, [e] or [E], an optional sign and digits. *)
Definition scanNumber (s : string) : option (string * string) :=
  let '(sign, s) :=
    match s with
    | String c s' => if Ascii.eqb c "-" then ("-", s') else (EmptyString, s)
    | EmptyString => (EmptyString, s)
    end in
  '(int, s) ←
    match s with
    | String c s' =>
        if Ascii.eqb c "0" then Some ("0", s')
        else if in_range 49 57 c then
          let '(ds, r) := span isDigit s' in Some (String c ds, r)
        else None
    | EmptyString => None
    end;
  '(frac, s) ←
    match s with
    | String c s' =>
        if Ascii.eqb c "." then
          let '(ds, r) := span isDigit s' in
          if String.eqb ds EmptyString then None else Some (String c ds, r)
        else Some (EmptyString, s)
    | EmptyString => Some (EmptyString, s)
    end;
  '(exp, s) ←
    match s with
    | String c s' =>
        if Ascii.eqb c "e" || Ascii.eqb c "E" then
          let '(sg, s'') :=
            match s' with
            | String c' r =>
                if Ascii.eqb c' "+" || Ascii.eqb c' "-"
                then (String c' EmptyString, r) else (EmptyString, s')
            | EmptyString => (EmptyString, s')
            end in
          let '(ds, r) := span isDigit s'' in
          if String.eqb ds EmptyString then None else Some (String c (sg +:+ ds), r)
        else Some (EmptyString, s)
    | EmptyString => Some (EmptyString, s)
    end;
  Some (sign +:+ int +:+ frac +:+ exp, s).

Definition maxNestingDepth : nat := 100 * 100.

Section Containers.
Variable value : string -> option (Value * string).

(** The members of an object after its first name's opening
    position, up to and including the closing brace.  [n] bounds the
    number of members; the length of the text always suffices. *)
Fixpoint members (n : nat) (s : string) : option (list (string * Value) * string) :=
  match n with
  | O => None
  | S n' =>
      match skipSpace s with
      | String q s1 =>
          if Ascii.eqb q dq then
            '(name, s2) ← scanString s1;
            match skipSpace s2 with
            | String colon s3 =>
                if Ascii.eqb colon ":" then
                  '(v, s4) ← value s3;
                  match skipSpace s4 with
                  | String c s5 =>
                      if Ascii.eqb c "," then
                        '(ms, s6) ← members n' s5; Some ((name, v) :: ms, s6)
                      else if Ascii.eqb c "}" then Some ([(name, v)], s5)
                      else None
                  | EmptyString => None
                  end
                else None
            | EmptyString => None
            end
          else None
      | EmptyString => None
      end
  end.

Fixpoint elements (n : nat) (s : string) : option (list Value * string) :=
  match n with
  | O => None
  | S n' =>
      '(v, s1) ← value s;
      match skipSpace s1 with
      | String c s2 =>
          if Ascii.eqb c "," then
            '(vs, s3) ← elements n' s2; Some (v :: vs, s3)
          else if Ascii.eqb c "]" then Some ([v], s2)
          else None
      | EmptyString => None
      end
  end.
End Containers.

Definition literal (word : string) (v : Value) (s : string) : option (Value * string) :=
  if String.prefix word s then Some (v, time.sdrop (String.length word) s) else None.

(** One JSON value at the head of [s]; [depth] is the number of nested
    objects and arrays still allowed. *)
Fixpoint value (depth : nat) (s : string) : option (Value * string) :=
  match skipSpace s with
  | EmptyString => None
  | String c s1 =>
      if Ascii.eqb c "{" then
        match depth with
        | O => None
        | S d =>
            match skipSpace s1 with
            | EmptyString => None
            | String c' s2 =>
                if Ascii.eqb c' "}" then Some (VObject [], s2)
                else
                  '(ms, r) ← members (value d) (String.length s1) s1;
                  Some (VObject ms, r)
            end
        end
      else if Ascii.eqb c "[" then
        match depth with
        | O => None
        | S d =>
            match skipSpace s1 with
            | EmptyString => None
            | String c' s2 =>
                if Ascii.eqb c' "]" then Some (VArray [], s2)
                else
                  '(vs, r) ← elements (value d) (String.length s1) s1;
                  Some (VArray vs, r)
            end
        end
      else if Ascii.eqb c dq then
        '(raw, r) ← scanString s1; Some (VString raw, r)
      else if Ascii.eqb c "-" || isDigit c then
        '(lit, r) ← scanNumber (String c s1); Some (VNumber lit, r)
      else if Ascii.eqb c "t" then literal "true" (VBool true) (String c s1)
      else if Ascii.eqb c "f" then literal "false" (VBool false) (String c s1)
      else if Ascii.eqb c "n" then literal "null" VNull (String c s1)
      else None
  end.

(** [checkValid]: the whole text is one value, white space around it. *)
Definition parse (data : string) : option Value :=
  '(v, rest) ← value maxNestingDepth data;
  if String.eqb (skipSpace rest) EmptyString then Some v else None.

(** *** Writing a value ([Indent] with an empty prefix and an indent of two spaces) *)

Definition newline (level : nat) : string :=
  String "010" (String.concat EmptyString (replicate level "  ")).

Fixpoint render (level : nat) (v : Value) : string :=
  match v with
  | VNull => "null"
  | VBool b => if b then "true" else "false"
  | VNumber lit => lit
  | VString raw => quoted raw
  | VArray [] => "[]"
  | VArray vs =>
      "[" +:+ newline (S level)
        +:+ String.concat ("," +:+ newline (S level)) (map (render (S level)) vs)
        +:+ newline level +:+ "]"
  | VObject [] => "{}"
  | VObject ms =>
      "{" +:+ newline (S level)
        +:+ String.concat ("," +:+ newline (S level))
              (map (fun kv => quoted kv.1 +:+ ": " +:+ render (S level) kv.2) ms)
        +:+ newline level +:+ "}"
  end.

(** *** Encoding the store's map *)

Definition mapM {A B} (f : A -> result B) : list A -> result (list B) :=
  fix go l :=
    match l with
    | [] => Ok []
    | x :: l' => rbind (f x) (fun y => rmap (cons y) (go l'))
    end.

(** [time.Time] is a [json.Marshaler]; the text it returns is a string
    literal without escapes. *)
Definition encodeTime (t : time.Time) : result Value :=
  rmap VString (time.appendStrictRFC3339 t).

(** The struct encoder for [Link], by its field tags. *)
Definition encodeLink (l : Link) : result Value :=
  rbind (encodeTime (CreatedAt l)) (fun c =>
  rbind (encodeTime (UpdatedAt l)) (fun u =>
  Ok (VObject
        ([("alias", VString (appendString (Alias l)));
          ("url", VString (appendString (URL l)))]
         ++ (if String.eqb (Description l) EmptyString then []
             else [("description", VString (appendString (Description l)))])
         ++ (if String.eqb (Category l) EmptyString then []
             else [("category", VString (appendString (Category l)))])
         ++ [("created_at", c); ("updated_at", u)])))).

Definition encodePtr (p : option Link) : result Value :=
  match p with
  | None => Ok VNull
  | Some l => encodeLink l
  end.

Definition keyLe (a b : string * option Link) : Prop :=
  String.leb a.1 b.1 = true.
#[global] Instance keyLe_dec a b : Decision (keyLe a b).
Proof. unfold keyLe. solve_decision. Defined.

(** The map encoder: members in the order of their keys. *)
Definition encodeMap (g : gomap (option Link)) : result Value :=
  match g with
  | nil_map => Ok VNull
  | mk_map m =>
      rmap VObject
        (mapM (fun kv => rmap (pair (appendString kv.1)) (encodePtr kv.2))
           (merge_sort keyLe (map_to_list m)))
  end.

(** [json.MarshalIndent] of the map, with an empty prefix and an indent
    of two spaces. *)
Definition MarshalIndent (g : gomap (option Link)) : result string :=
  rmap (render 0) (encodeMap g).

(** *** Decoding into the store's map *)

(** [foldName]: ASCII letters to upper case; the two other runes that
    fold to an ASCII letter, U+017F (C5 BF) to [S] and U+212A
    (E2 84 AA) to [K].  Every other rune folds to a rune outside
    ASCII and is left as it is. *)
Fixpoint foldName (s : string) : string :=
  match s with
  | EmptyString => EmptyString
  | String c0 s1 =>
      if in_range 97 122 c0 then String (byte_of (byte_val c0 - 32)) (foldName s1)
      else
        match s1 with
        | String c1 s2 =>
            if Ascii.eqb c0 "197" && Ascii.eqb c1 "191" then String "S" (foldName s2)
            else
              match s2 with
              | String c2 s3 =>
                  if Ascii.eqb c0 "226" && Ascii.eqb c1 "132" && Ascii.eqb c2 "170"
                  then String "K" (foldName s3)
                  else String c0 (foldName s1)
              | EmptyString => String c0 (foldName s1)
              end
        | EmptyString => String c0 (foldName s1)
        end
  end.

Inductive field : Type :=
| fAlias | fURL | fDescription | fCategory | fCreatedAt | fUpdatedAt.

Definition fields : list (string * field) :=
  [("alias", fAlias); ("url", fURL); ("description", fDescription);
   ("category", fCategory); ("created_at", fCreatedAt); ("updated_at", fUpdatedAt)].

(** A member name selects the field with exactly that name, else the
    field whose name is equal to it under case folding. *)
Definition lookupField (name : string) : option field :=
  match List.find (fun nf => String.eqb nf.1 name) fields with
  | Some nf => Some nf.2
  | None =>
      snd <$> List.find (fun nf => String.eqb (foldName nf.1) (foldName name)) fields
  end.

Definition zeroLink : Link :=
  {| Alias := EmptyString; URL := EmptyString; Description := EmptyString;
     Category := EmptyString; CreatedAt := time.zero; UpdatedAt := time.zero |}.

Definition ofOption {A} (o : option A) : result A :=
  match o with Some a => Ok a | None => Err UnmarshalError end.

Section Decode.
Variable Parse : string -> result time.Time.

(** A string field takes a JSON string, and is left alone by [null]. *)
Definition decodeString (v : Value) (old : string) : result string :=
  match v with
  | VString raw => ofOption (unquote raw)
  | VNull => Ok old
  | _ => Err UnmarshalError
  end.

(** [Time.UnmarshalJSON]: a string literal, read without
    unquoting, or [null]. *)
Definition decodeTime (v : Value) (old : time.Time) : result time.Time :=
  match v with
  | VString raw =>
      match time.parseStrictRFC3339 Parse raw with
      | Ok t => Ok t
      | Err _ => Err UnmarshalError
      end
  | VNull => Ok old
  | _ => Err UnmarshalError
  end.

Definition decodeField (l : Link) (kv : string * Value) : result Link :=
  rbind (ofOption (unquote kv.1)) (fun name =>
  match lookupField name with
  | None => Ok l
  | Some fAlias =>
      rmap (fun x => mkLink x (URL l) (Description l) (Category l) (CreatedAt l) (UpdatedAt l))
        (decodeString kv.2 (Alias l))
  | Some fURL =>
      rmap (fun x => mkLink (Alias l) x (Description l) (Category l) (CreatedAt l) (UpdatedAt l))
        (decodeString kv.2 (URL l))
  | Some fDescription =>
      rmap (fun x => mkLink (Alias l) (URL l) x (Category l) (CreatedAt l) (UpdatedAt l))
        (decodeString kv.2 (Description l))
  | Some fCategory =>
      rmap (fun x => mkLink (Alias l) (URL l) (Description l) x (CreatedAt l) (UpdatedAt l))
        (decodeString kv.2 (Category l))
  | Some fCreatedAt =>
      rmap (fun x => mkLink (Alias l) (URL l) (Description l) (Category l) x (UpdatedAt l))
        (decodeTime kv.2 (CreatedAt l))
  | Some fUpdatedAt =>
      rmap (fun x => mkLink (Alias l) (URL l) (Description l) (Category l) (CreatedAt l) x)
        (decodeTime kv.2 (UpdatedAt l))
  end).

Definition foldM {A B} (f : A -> B -> result A) : list B -> A -> result A :=
  fix go l a :=
    match l with
    | [] => Ok a
    | x :: l' => rbind (f a x) (go l')
    end.

(** A map element of type [*Link]: [null] is the nil pointer, an
    object fills a new record. *)
Definition decodePtr (v : Value) : result (option Link) :=
  match v with
  | VNull => Ok None
  | VObject ms => rmap Some (foldM decodeField ms zeroLink)
  | _ => Err UnmarshalError
  end.

Definition decodeEntry (m : gmap string (option Link)) (kv : string * Value)
  : result (gmap string (option Link)) :=
  rbind (ofOption (unquote kv.1)) (fun key =>
  rmap (fun p => <[key := p]> m) (decodePtr kv.2)).

(** The target is a pointer to an allocated, empty map: [null] makes
    it nil, an object fills it, a later member replacing an earlier
    one of the same name. *)
Definition decodeMap (v : Value) : result (gomap (option Link)) :=
  match v with
  | VNull => Ok nil_map
  | VObject ms => rmap mk_map (foldM decodeEntry ms ∅)
  | _ => Err UnmarshalError
  end.

(** [json.Unmarshal(data, &tempLinks)] *)
Definition Unmarshal (data : string) : result (gomap (option Link)) :=
  match parse data with
  | None => Err SyntaxError
  | Some v => decodeMap v
  end.
End Decode.

End json.


(** ** os

    The file system as the store sees it: the contents of the files by
    path, the state of the medium, and the number of calls of
    [WriteFile] made so far. *)
Module os.

Inductive Fault : Type :=
| Healthy
| ReadFails
| OpenFails
| WriteFails (written : nat).

Record Disk : Type := mkDisk {
  files : gmap string string;
  fault : Fault;
  writes : nat
}.

(** [os.ReadFile(name)] *)
Definition ReadFile (d : Disk) (name : string) : result string :=
  match fault d with
  | ReadFails => Err (PathError "read" name)
  | _ =>
      match files d !! name with
      | Some data => Ok data
      | None => Err (PathError "open" name)
      end
  end.

(** [os.WriteFile(name, data, 0644)]: the file is opened with
    [O_WRONLY|O_CREATE|O_TRUNC] and written.  A failing open leaves the
    files alone; a failing write leaves the bytes written before it. *)
Definition WriteFile (d : Disk) (name data : string) : option error * Disk :=
  match fault d with
  | OpenFails =>
      (Some (PathError "open" name), mkDisk (files d) (fault d) (S (writes d)))
  | WriteFails n =>
      (Some (PathError "write" name),
       mkDisk (<[name := substring 0 n data]> (files d)) (fault d) (S (writes d)))
  | _ => (None, mkDisk (<[name := data]> (files d)) (fault d) (S (writes d)))
  end.

(** [os.Stat(name)]: of the ways it can fail the model has one, the
    file that is not there. *)
Definition Stat (d : Disk) (name : string) : option error :=
  match files d !! name with
  | Some _ => None
  | None => Some (PathError "stat" name)
  end.

(** [os.IsNotExist(err)], for the answer of [Stat]. *)
Definition IsNotExist (err : option error) : bool :=
  match err with
  | Some (PathError op _) => String.eqb op "stat"
  | _ => false
  end.

End os.

(** ** fsnotify

    What the watcher of a directory delivers: an event names a file of
    the directory and carries the operations on it as a set of bits. *)
Module fsnotify.

Definition Create : Z := 1.
Definition Write : Z := 2.
Definition Remove : Z := 4.
Definition Rename : Z := 8.
Definition Chmod : Z := 16.

Record Event : Type := mkEvent {
  Name : string;
  Op : Z
}.

End fsnotify.

(** ** internal/storage

    The methods run one at a time, each under the store's lock; the lock
    itself is not part of the model, and the watcher runs between them.
    A method is a function from the state before the call (the store
    and the disk) to what the call does and the state after it. *)
Module storage.
Import link.

Record JSONStorage : Type := mkStorage {
  filePath : string;
  links : gomap (option Link)
}.

Record World : Type := mkWorld {
  store : JSONStorage;
  disk : os.Disk
}.

(** A call returns, or stops in a run-time panic. *)
Inductive outcome (A : Type) : Type :=
| Returns (a : A)
| Panics (msg : string).
Arguments Returns {A} a.
Arguments Panics {A} msg.

Definition IO (A : Type) : Type := World -> outcome A * World.

#[global] Instance IO_ret : MRet IO := fun A a w => (Returns a, w).
#[global] Instance IO_bind : MBind IO := fun A B k m w =>
  match m w with
  | (Returns a, w') => k a w'
  | (Panics msg, w') => (Panics msg, w')
  end.

Definition panic {A} (msg : string) : IO A := fun w => (Panics msg, w).
Definition getLinks : IO (gomap (option Link)) := fun w => (Returns (links (store w)), w).
Definition setLinks (g : gomap (option Link)) : IO unit := fun w =>
  (Returns tt, mkWorld (mkStorage (filePath (store w)) g) (disk w)).
Definition getPath : IO string := fun w => (Returns (filePath (store w)), w).

(** [l.Alias] and the like: the record a pointer points to. *)
Definition deref (l : option Link) : IO Link :=
  match l with
  | Some r => mret r
  | None => panic "invalid memory address or nil pointer dereference"
  end.

(** [s.links[key] = l] *)
Definition assign (key : string) (l : option Link) : IO unit :=
  g ← getLinks;
  match g with
  | nil_map => panic "assignment to entry in nil map"
  | mk_map m => setLinks (mk_map (<[key := l]> m))
  end.

(** [delete(s.links, key)] *)
Definition remove (key : string) : IO unit :=
  g ← getLinks;
  match g with
  | nil_map => mret tt
  | mk_map m => setLinks (mk_map (delete key m))
  end.

Definition ReadFile (name : string) : IO (result string) := fun w =>
  (Returns (os.ReadFile (disk w) name), w).
Definition WriteFile (name data : string) : IO (option error) := fun w =>
  let '(err, d) := os.WriteFile (disk w) name data in
  (Returns err, mkWorld (store w) d).

(** [_, exists := s.links[alias]] *)
Definition exists_ (g : gomap (option Link)) (alias : string) : bool :=
  bool_decide (is_Some (entries g !! alias)).

Section Load.
Variable Parse : string -> result time.Time.

(** [load] (json_storage.go, lines 110-138) *)
Definition load : IO (option error) :=
  path ← getPath;
  r ← ReadFile path;
  match r with
  | Err err => mret (Some err)
  | Ok data =>
      let tempLinks : gomap (option Link) := mk_map ∅ in
      if (String.length data =? 0)%nat then
        setLinks tempLinks;; mret None
      else
        match json.Unmarshal Parse data with
        | Err err => mret (Some err)
        | Ok tempLinks => setLinks tempLinks;; mret None
        end
  end.
End Load.

(** [saveWithoutLock] (lines 155-163) *)
Definition saveWithoutLock : IO (option error) :=
  g ← getLinks;
  match json.MarshalIndent g with
  | Err err => mret (Some err)
  | Ok data => path ← getPath; WriteFile path data
  end.

(** [Save] (lines 102-107) *)
Definition Save : IO (option error) := saveWithoutLock.

(** [Create] (lines 141-152) *)
Definition Create (l : option Link) : IO (option error) :=
  r ← deref l;
  g ← getLinks;
  if exists_ g (Alias r) then mret (Some (errors_New "link alias already exists"))
  else assign (Alias r) l;; saveWithoutLock.

(** [Get] (lines 166-176) *)
Definition Get (alias : string) : IO (option Link * option error) :=
  g ← getLinks;
  match entries g !! alias with
  | None => mret (None, Some (errors_New "link not found"))
  | Some l => mret (l, None)
  end.

(** [for _, l := range s.links] visits the entries in an order Go does
    not specify: [visit] is any arrangement of them. *)
Definition rangeOrder (g : gomap (option Link)) (visit : list (string * option Link)) : Prop :=
  visit ≡ₚ map_to_list (entries g).

(** [List] (lines 179-189): a new slice, to which the loop appends the
    pointer of each entry it visits. *)
Definition List (visit : list (string * option Link)) : IO (list (option Link)) :=
  let result : list (option Link) := [] in
  mret (foldl (fun result kv => (result ++ [kv.2])%list) result visit).

(** [Update] (lines 192-202) *)
Definition Update (l : option Link) : IO (option error) :=
  r ← deref l;
  g ← getLinks;
  if negb (exists_ g (Alias r)) then mret (Some (errors_New "link not found"))
  else assign (Alias r) l;; saveWithoutLock.

(** [Delete] (lines 205-215) *)
Definition Delete (alias : string) : IO (option error) :=
  g ← getLinks;
  if negb (exists_ g alias) then mret (Some (errors_New "link not found"))
  else remove alias;; saveWithoutLock.

(** What a [select] of the watcher loop receives: a value of one of
    the two channels of the watcher, or the news that the channel is
    closed ([ok] false). *)
Inductive Received : Type :=
| FromEvents (event : option fsnotify.Event)
| FromErrors (err : option error).

(** A call of [log.Printf]. *)
Inductive Arg : Type :=
| a_string (s : string)
| a_error (err : error).

Record LogLine : Type := log_Printf {
  format : string;
  args : list Arg
}.

Section Start.
Variable Parse : string -> result time.Time.
Variable Dir : string -> string.

(** The loop of [watchFile] (lines 40-67), run on what the two channels
    deliver, in the order the [select] takes it.  The result is the
    lines logged and the state reached when the deliveries are used
    up: by then the loop has found a channel closed and the function
    has returned, or nothing arrives any more and the goroutine waits
    in the [select].  [Returns] stands for both and says only that
    there was no panic.  The pause before a reload is not modelled. *)
Fixpoint watchLoop (received : list Received) : IO (list LogLine) :=
  match received with
  | [] => mret []
  | FromEvents None :: _ => mret []
  | FromEvents (Some event) :: received =>
      path ← getPath;
      if String.eqb (fsnotify.Name event) path
         && (Z.land (fsnotify.Op event) fsnotify.Write =? fsnotify.Write)
      then
        err ← load Parse;
        match err with
        | Some err =>
            logged ← watchLoop received;
            mret (log_Printf "Error reloading links: %v" [a_error err] :: logged)
        | None => watchLoop received
        end
      else watchLoop received
  | FromErrors None :: _ => mret []
  | FromErrors (Some err) :: received =>
      logged ← watchLoop received;
      mret (log_Printf "Watcher error: %v" [a_error err] :: logged)
  end.

(** [watchFile] (lines 25-68).  [newWatcher] is the error of
    [fsnotify.NewWatcher] and [add] the one of [watcher.Add(dir)]. *)
Definition watchFile (newWatcher add : option error) (received : list Received) : IO (list LogLine) :=
  match newWatcher with
  | Some err => mret [log_Printf "Error creating file watcher: %v" [a_error err]]
  | None =>
      path ← getPath;
      let dir := Dir path in
      match add with
      | Some err =>
          mret [log_Printf "Error watching directory %s: %v" [a_string dir; a_error err]]
      | None => watchLoop received
      end
  end.

(** [NewJSONStorage] (lines 71-99).  [abs] is what [filepath.Abs]
    returns for the path given and [mkdir] what [os.MkdirAll] returns
    for its directory.  The disk of the model holds files and no
    directories: the disk that comes back tells what became of the
    files, and nothing of the directories [os.MkdirAll] makes.  The
    call ends by starting [watchFile] in a goroutine of its own, which
    is not part of what the call returns. *)
Definition NewJSONStorage (abs : result string) (mkdir : option error) (d : os.Disk) : outcome (option JSONStorage * option error) * os.Disk :=
  match abs with
  | Err err => (Returns (None, Some err), d)
  | Ok absPath =>
      match mkdir with
      | Some err => (Returns (None, Some err), d)
      | None =>
          let storage := mkStorage absPath (mk_map ∅) in
          if negb (os.IsNotExist (os.Stat d absPath)) then
            match load Parse (mkWorld storage d) with
            | (Returns (Some err), w) => (Returns (None, Some err), disk w)
            | (Returns None, w) => (Returns (Some (store w), None), disk w)
            | (Panics msg, w) => (Panics msg, disk w)
            end
          else (Returns (Some storage, None), d)
      end
  end.
End Start.

End storage.

(** ** internal/server

    The handlers of the HTTP server.  A handler runs against the store
    and makes calls on the [http.ResponseWriter] it is given; the calls
    made so far, oldest first, are kept beside the world, so that a
    handler that panics has still made the calls before the panic.
    What [http.Redirect] and [http.Error] do with the writer is the
    library's, and each is kept as the call it is. *)
Module server.
Import link storage.

Record Server : Type := mkServer {
  addr : string;
  baseURL : string;
  notFound : string
}.

(** [NewServer] (server.go, lines 25-39).  The storage the server keeps
    is the store of the world its handlers run in; [addr] is the
    address its [http.Server] listens on. *)
Definition NewServer (port : Z) (notFoundURL : string) : Server :=
  let baseURL := "http://localhost:" +:+ pretty port in
  mkServer (":" +:+ pretty port) baseURL notFoundURL.

Definition StatusFound : Z := 302.
Definition StatusNotFound : Z := 404.

Inductive Call : Type :=
| SetHeader (key value : string)
| Written (text : string)
| Redirected (url : string) (code : Z)
| Errored (msg : string) (code : Z).

Definition Handler (A : Type) : Type :=
  World * list Call -> outcome A * (World * list Call).

#[global] Instance Handler_ret : MRet Handler := fun A a st => (Returns a, st).
#[global] Instance Handler_bind : MBind Handler := fun A B k m st =>
  match m st with
  | (Returns a, st') => k a st'
  | (Panics msg, st') => (Panics msg, st')
  end.

(** A method of the store, called from a handler. *)
Definition onStore {A} (m : IO A) : Handler A := fun st =>
  let '(r, w) := m st.1 in (r, (w, st.2)).

Definition respond (c : Call) : Handler unit := fun st =>
  (Returns tt, (st.1, (st.2 ++ [c])%list)).

(** [w.Header().Set(key, value)] *)
Definition Header_Set (key value : string) : Handler unit := respond (SetHeader key value).
(** [fmt.Fprintf(w, format, args...)], given the text the format and
    its arguments make. *)
Definition Fprintf (text : string) : Handler unit := respond (Written text).
(** [http.Redirect(w, r, url, code)] *)
Definition http_Redirect (url : string) (code : Z) : Handler unit := respond (Redirected url code).
(** [http.Error(w, msg, code)] *)
Definition http_Error (msg : string) (code : Z) : Handler unit := respond (Errored msg code).

(** [strings.TrimPrefix(s, prefix)] *)
Definition TrimPrefix (s prefix : string) : string :=
  if String.prefix prefix s then time.sdrop (String.length prefix) s else s.

Definition quote : string := String (byte_of 34) EmptyString.
Definition nl : string := String (byte_of 10) EmptyString.

(** The text of the page of [handleRootPage] before the links (lines
    99-114): the bytes between the back quotes, with the base URL in
    the place of the verb. *)
Definition rootTop (s : Server) : string :=
  "<!DOCTYPE html>
	<html>
	<head>
			<title>Go Links Service</title>
			<style>
				body { font-family: monospace, sans-serif; max-width: 800px; margin: 0 auto; padding: 20px; }
        h1 { color: #333; }
        pre { white-space: pre; line-height: 1.5; }
        a { text-decoration: none; color: #0066cc; }
        a:hover { text-decoration: underline; }
			</style>
	</head>
	<body>
			<h1>Go Links Service</h1>
			<p>Use this service by navigating to <code>"
  +:+ baseURL s
  +:+ "/&lt;alias&gt;</code></p>
			<h2>Available Links</h2>".

(** The end of the page (lines 183-185). *)
Definition rootEnd : string :=
  "
	</body>
	</html>".

(** The page of [handleInfo] (lines 193-220). *)
Definition infoPage (s : Server) (n : nat) : string :=
  "<!DOCTYPE html>
<html>
<head>
    <title>Go Links Service - Info</title>
    <style>
        body { font-family: monospace, sans-serif; max-width: 800px; margin: 0 auto; padding: 20px; }
        h1, h2 { color: #333; }
        .stats { display: flex; gap: 20px; }
        .stat-box { flex: 1; padding: 15px; background: #f5f5f5; border-radius: 5px; text-align: center; }
        .stat-number { font-size: 24px; font-weight: bold; margin: 10px 0; }
    </style>
</head>
<body>
    <h1>Go Links Service - Info</h1>
    <div class="
  +:+ quote
  +:+ "stats"
  +:+ quote
  +:+ ">
        <div class="
  +:+ quote
  +:+ "stat-box"
  +:+ quote
  +:+ ">
            <div>Total Links</div>
            <div class="
  +:+ quote
  +:+ "stat-number"
  +:+ quote
  +:+ ">"
  +:+ pretty n
  +:+ "</div>
        </div>
    </div>
    <h2>Service Information</h2>
    <ul>
        <li>Base URL: "
  +:+ baseURL s
  +:+ "</li>
        <li>Storage: JSON File</li>
    </ul>
    <p><a href="
  +:+ quote
  +:+ "/"
  +:+ quote
  +:+ ">Back to home</a></p>
</body>
</html>".

(** [sort.Strings]: ascending in the order of the bytes. *)
Definition sort_Strings (a : list string) : list string := merge_sort String.le a.

(** [catLinks[i].Alias < catLinks[j].Alias], the order [sort.Slice] is
    given.  [sort.Slice] is not stable: where two links of a slice have
    the same alias Go leaves their order open, and the model takes the
    one of a merge sort. *)
Definition byAlias (a b : Link) : Prop := String.le (Alias a) (Alias b).
#[global] Instance byAlias_dec : RelDecision byAlias := fun a b => String.le_dec (Alias a) (Alias b).
Definition sort_Slice (catLinks : list Link) : list Link := merge_sort byAlias catLinks.

(** One line of the tree for a link: the four formats of lines 164-172
    differ in what stands before the alias. *)
Definition linkLine (lead : string) (l : Link) : string :=
  lead +:+ Alias l +:+ " → <a href=" +:+ quote +:+ URL l +:+ quote +:+ ">" +:+ URL l +:+ "</a>" +:+ nl.

Section Handlers.
Variable ToLower : string -> string.

(** The loop of lines 122-130.  The slices hold the pointers of
    [links]; each is read through in the loop that files it, so a slice
    is kept as the records pointed to. *)
Fixpoint group (links : list (option Link)) (categories : gmap string (list Link)) : Handler (gmap string (list Link)) :=
  match links with
  | [] => mret categories
  | l :: links =>
      r ← onStore (deref l);
      let cat := Category r in
      let cat := if String.eqb cat EmptyString then "uncategorized" else ToLower cat in
      group links (<[cat := (default [] (categories !! cat) ++ [r])%list]> categories)
  end.

(** The loop of lines 158-174 *)
Fixpoint linkLines (isLastCat : bool) (catLinks : list Link) : Handler unit :=
  match catLinks with
  | [] => mret tt
  | l :: catLinks =>
      let isLastLink := match catLinks with [] => true | _ => false end in
      (if isLastCat then
         if isLastLink then Fprintf (linkLine "    └── " l)
         else Fprintf (linkLine "    ├── " l)
       else
         if isLastLink then Fprintf (linkLine "│   └── " l)
         else Fprintf (linkLine "│   ├── " l));;
      linkLines isLastCat catLinks
  end.

(** The loop of lines 143-175 *)
Fixpoint tree (categories : gmap string (list Link)) (sortedCats : list string) : Handler unit :=
  match sortedCats with
  | [] => mret tt
  | cat :: sortedCats =>
      let catLinks := default [] (categories !! cat) in
      let isLastCat := match sortedCats with [] => true | _ => false end in
      (if isLastCat then Fprintf ("└── " +:+ cat +:+ nl)
       else Fprintf ("├── " +:+ cat +:+ nl));;
      let catLinks := sort_Slice catLinks in
      linkLines isLastCat catLinks;;
      tree categories sortedCats
  end.

(** [handleRootPage] (lines 94-185).  [visit] is the order in which
    [List] meets the entries.  The loop of lines 134-136 collects the
    categories in an order of its own, which [sort.Strings] then
    replaces: the keys are taken in the order of the map of the model. *)
Definition handleRootPage (s : Server) (visit : list (string * option Link)) : Handler unit :=
  links ← onStore (List visit);
  Header_Set "Content-Type" "text/html; charset=utf-8";;
  Fprintf (rootTop s);;
  (if (length links =? 0)%nat then
     Fprintf "<p>No links available. Add some using the CLI tool.</p>"
   else
     categories ← group links ∅;
     let sortedCats := sort_Strings (map_to_list categories).*1 in
     Fprintf "<pre>";;
     tree categories sortedCats;;
     Fprintf "</pre>");;
  Fprintf rootEnd.

(** [handleRedirect] (lines 65-91), for a request of path [path]. *)
Definition handleRedirect (s : Server) (visit : list (string * option Link)) (path : string) : Handler unit :=
  let alias := TrimPrefix path "/" in
  if String.eqb alias EmptyString then handleRootPage s visit
  else
    r ← onStore (Get alias);
    let '(link, err) := r in
    match err with
    | Some _ =>
        if negb (String.eqb (notFound s) EmptyString) then http_Redirect (notFound s) StatusFound
        else http_Error ("Go link not found: " +:+ alias) StatusNotFound
    | None =>
        l ← onStore (deref link);
        http_Redirect (URL l) StatusFound
    end.

(** [handleInfo] (lines 188-221) *)
Definition handleInfo (s : Server) (visit : list (string * option Link)) : Handler unit :=
  links ← onStore (List visit);
  Header_Set "Content-Type" "text/html; charset=utf-8";;
  Fprintf (infoPage s (length links)).
End Handlers.

End server.


(** * The vocabulary of the properties *)

Import time link json storage.

(** The two errors the store makes itself. *)
Definition AlreadyExists : error := errors_New "link alias already exists".
Definition NotFound : error := errors_New "link not found".

(** Every key of the map leads to a record that carries the key as its
    alias. *)
Definition keyConsistent (g : gomap (option Link)) : Prop :=
  forall k p, entries g !! k = Some p -> exists l, p = Some l /\ Alias l = k.

(** The store with another map in place of its own. *)
Definition withLinks (w : World) (g : gomap (option Link)) : World :=
  mkWorld (mkStorage (filePath (store w)) g) (disk w).

Fixpoint sall (p : ascii -> bool) (s : string) : bool :=
  match s with
  | EmptyString => true
  | String c s' => p c && sall p s'
  end.

(** ** Valid records

    A timestamp that RFC 3339 can express: the year of its wall clock has
    four digits, the nanoseconds are below one second, and the zone
    offset is a whole number of minutes less than a day. *)
Definition representable (t : Time) : bool :=
  (0 <=? Year t) && (Year t <=? 9999)
  && (0 <=? nsec t) && (nsec t <? 1000000000)
  && (offset t mod 60 =? 0) && (-86400 <? offset t) && (offset t <? 86400).

(** A valid record: its texts are well-formed UTF-8 and its timestamps
    are representable. *)
Definition validLink (l : Link) : bool :=
  utf8.ValidString (Alias l) && utf8.ValidString (URL l)
  && utf8.ValidString (Description l) && utf8.ValidString (Category l)
  && representable (CreatedAt l) && representable (UpdatedAt l).

Definition validEntry (kv : string * option Link) : bool :=
  utf8.ValidString kv.1 && match kv.2 with Some l => validLink l | None => true end.

(** A mapping of well-formed aliases to valid records (or nil
    pointers). *)
Definition validMapping (g : gomap (option Link)) : bool :=
  forallb validEntry (map_to_list (entries g)).

(** The record as the file keeps it: the timestamps without their
    monotonic clock readings. *)
Definition wallLink (l : Link) : Link :=
  mkLink (Alias l) (URL l) (Description l) (Category l)
    (Round0 (CreatedAt l)) (Round0 (UpdatedAt l)).

Definition persisted (g : gomap (option Link)) : gomap (option Link) :=
  match g with
  | nil_map => nil_map
  | mk_map m => mk_map (fmap (M := gmap string) (fmap (M := option) wallLink) m)
  end.

(** Two timestamps with the same field value: the same instant, in the
    same zone. *)
Definition sameTime (t u : Time) : Prop :=
  unixSec t = unixSec u /\ nsec t = nsec u /\ offset t = offset u.

Definition sameLink (a b : Link) : Prop :=
  Alias a = Alias b /\ URL a = URL b /\ Description a = Description b
  /\ Category a = Category b
  /\ sameTime (CreatedAt a) (CreatedAt b) /\ sameTime (UpdatedAt a) (UpdatedAt b).

(** Two mappings with the same aliases and, at each alias, the same
    field values. *)
Definition sameMapping (g h : gomap (option Link)) : Prop :=
  dom (entries g) = dom (entries h)
  /\ forall k, option_Forall2 (option_Forall2 sameLink) (entries g !! k) (entries h !! k).

(** ** Reading back what was written *)

Definition prepend (a : string) (r : string * string) : string * string :=
  (a +:+ r.1, r.2).

(** A character the scanner takes as it is inside a string. *)
Definition plain (c : ascii) : bool :=
  (32 <=? byte_val c) && negb (byte_val c =? 34) && negb (byte_val c =? 92).

(** A string body the scanner reads back as it stands. *)
Definition scannable (raw : string) : Prop :=
  forall rest, scanString (raw +:+ String dq rest) = Some (raw, rest).

(** [pv] reads the text [sub v], written after a colon and a space, as
    the value [v]. *)
Definition reads (pv : string -> option (Value * string)) (sub : Value -> string)
    (v : Value) : Prop :=
  forall rest, pv (String " " (sub v +:+ rest)) = Some (v, rest).

Definition blank (ws : string) : Prop := sall isSpace ws = true.

Definition memberText (sub : Value -> string) (kv : string * Value) : string :=
  quoted kv.1 +:+ ": " +:+ sub kv.2.

(** The members the struct encoder writes for a record. *)
Definition linkMembers (l : Link) : list (string * Value) :=
  [("alias", VString (appendString (Alias l)));
   ("url", VString (appendString (URL l)))]
  ++ (if String.eqb (Description l) EmptyString then []
      else [("description", VString (appendString (Description l)))])
  ++ (if String.eqb (Category l) EmptyString then []
      else [("category", VString (appendString (Category l)))])
  ++ [("created_at", VString (appendFormatRFC3339 (CreatedAt l)));
      ("updated_at", VString (appendFormatRFC3339 (UpdatedAt l)))].

Definition entryValue (p : option Link) : Value :=
  match p with
  | None => VNull
  | Some l => VObject (linkMembers l)
  end.

Definition entryMember (kv : string * option Link) : string * Value :=
  (appendString kv.1, entryValue kv.2).

(** ** Sample states *)

Definition epoch2024 : Time :=
  {| unixSec := 1704067200; nsec := 0; offset := 0; mono := None |}.
(** A reading of the clock as [time.Now] gives it, in a zone two hours
    east of UTC. *)
Definition clockReading : Time :=
  {| unixSec := 1709251199; nsec := 120000000; offset := 7200; mono := Some 5000 |}.
Definition gh : Link :=
  mkLink "gh" "https://github.com/x" EmptyString EmptyString epoch2024 epoch2024.
Definition gh' : Link :=
  mkLink "gh" "https://github.com/y" "mirror" EmptyString epoch2024 epoch2024.
Definition docs : Link := NewLink clockReading "docs" "https://go.dev/doc?q=a&b" "Go <docs>" "dev".
Definition healthy (fs : gmap string string) : os.Disk := os.mkDisk fs os.Healthy 0.
Definition emptyWorld : World :=
  mkWorld (mkStorage "/links.json" (mk_map ∅)) (healthy ∅).
Definition ghWorld : World :=
  mkWorld (mkStorage "/links.json" (mk_map {["gh" := Some gh]})) (healthy ∅).
Definition twoLinks : World :=
  mkWorld (mkStorage "/links.json" (mk_map (<["docs" := Some docs]> {["gh" := Some gh]})))
    (healthy ∅).
Definition readOnly : World :=
  mkWorld (store emptyWorld) (os.mkDisk ∅ os.OpenFails 0).
(** A lenient parser that accepts nothing. *)
Definition rejects (s : string) : result Time := Err UnmarshalError.

(** ** Further vocabulary: the watcher and the encoder *)

(** A timestamp whose year [Time.MarshalJSON] refuses. *)
Definition yearOutOfRange (t : Time) : Prop := Year t < 0 \/ 9999 < Year t.

(** The first day of the year 10000, UTC. *)
Definition year10000 : Time :=
  {| unixSec := 253402300800; nsec := 0; offset := 0; mono := None |}.
Definition late : Link :=
  mkLink "late" "https://example.com" EmptyString EmptyString year10000 year10000.

(** What the watcher loop passes over: an event for another file of
    the directory, or one whose operations do not include a write. *)
Definition passedOver (path : string) (r : Received) : bool :=
  match r with
  | FromEvents (Some event) =>
      negb (String.eqb (fsnotify.Name event) path && Z.testbit (fsnotify.Op event) 1)
  | _ => false
  end.

(** A value received, as opposed to the closing of a channel. *)
Definition delivered (r : Received) : bool :=
  match r with
  | FromEvents None | FromErrors None => false
  | _ => true
  end.

(** ** The pages of the server *)

Import server.

(** A handler that leaves the store and the disk as they are and only
    adds to the calls made on the writer. *)
Definition appendsOnly {A} (h : Handler A) : Prop :=
  forall w calls, exists r more, h (w, calls) = (r, (w, (calls ++ more)%list)).

(** The answer to a request for an alias the store does not have. *)
Definition missing (s : Server) (alias : string) : Call :=
  if String.eqb (notFound s) EmptyString
  then Errored ("Go link not found: " +:+ alias) StatusNotFound
  else Redirected (notFound s) StatusFound.

(** The lines written for the links of one category. *)
Fixpoint linkCalls (isLastCat : bool) (catLinks : list Link) : list Call :=
  match catLinks with
  | [] => []
  | l :: catLinks =>
      Written (linkLine
                 match isLastCat, catLinks with
                 | true, [] => "    └── "
                 | true, _ => "    ├── "
                 | false, [] => "│   └── "
                 | false, _ => "│   ├── "
                 end l)
      :: linkCalls isLastCat catLinks
  end.

(** The lines written for a list of categories, [catLinks] giving the
    links of each. *)
Fixpoint treeCalls (catLinks : string -> list Link) (cats : list string) : list Call :=
  match cats with
  | [] => []
  | cat :: cats =>
      let last := match cats with [] => true | _ => false end in
      (Written ((if last then "└── " else "├── ") +:+ cat +:+ nl)
       :: linkCalls last (sort_Slice (catLinks cat)))
      ++ treeCalls catLinks cats
  end.

(** The records a loop over the entries meets, in its order. *)
Definition recordsOf (visit : list (string * option Link)) : list Link :=
  omap snd visit.

Section Tree.
Variable ToLower : string -> string.

(** The category a record is filed under. *)
Definition categoryOf (l : Link) : string :=
  if String.eqb (Category l) EmptyString then "uncategorized" else ToLower (Category l).

(** The records of a list that are filed under a category, in the
    order of the list. *)
Definition under (cat : string) (ls : list Link) : list Link :=
  filter (fun l => categoryOf l = cat) ls.

(** The map of the categories after the records of a list are filed. *)
Definition filed (ls : list Link) (categories : gmap string (list Link)) : gmap string (list Link) :=
  foldl (fun categories r =>
           <[categoryOf r := (default [] (categories !! categoryOf r) ++ [r])%list]> categories)
    categories ls.
End Tree.

(** A store with a nil pointer under an alias, as the file text
    [{"k": null}] leaves it. *)
Definition nilEntry : World :=
  mkWorld (mkStorage "/links.json" (mk_map {["k" := None]})) (healthy ∅).

(** * Proofs *)

Ltac run :=
  unfold Create, Update, Delete, Get, List, load, Save, saveWithoutLock,
    assign, remove, deref, panic, getLinks, setLinks, getPath,
    storage.ReadFile, storage.WriteFile;
  unfold mbind, mret, IO_bind, IO_ret; simpl.

(** ** The model at work *)

Example format_epoch2024 : appendStrictRFC3339 epoch2024 = Ok "2024-01-01T00:00:00Z".
Proof. reflexivity. Qed.

Example format_clockReading :
  appendStrictRFC3339 clockReading = Ok "2024-03-01T01:59:59.12+02:00".
Proof. reflexivity. Qed.

Example parse_clockReading :
  parseRFC3339 "2024-03-01T01:59:59.12+02:00" = Some (Round0 clockReading).
Proof. reflexivity. Qed.

Example parse_not_a_leap_day : parseRFC3339 "2023-02-29T00:00:00Z" = None.
Proof. reflexivity. Qed.

Example format_year_10000 :
  appendStrictRFC3339 (mkTime 253402300800 0 0 None)
  = Err (MarshalerError "year outside of range [0,9999]").
Proof. reflexivity. Qed.

Example escape_html :
  appendString "a<b>&c" = "a" +:+ String backslash "u003cb" +:+ String backslash "u003e"
                          +:+ String backslash "u0026c".
Proof. reflexivity. Qed.

Example escape_not_utf8 :
  appendString (String "255" "z") = String backslash "ufffdz"
  /\ unquote (String backslash "ufffdz") = Some (utf8.EncodeRune utf8.RuneError +:+ "z").
Proof. split; reflexivity. Qed.

Example marshal_empty_map : MarshalIndent (mk_map ∅) = Ok "{}".
Proof. reflexivity. Qed.

Example marshal_nil_map : MarshalIndent nil_map = Ok "null".
Proof. reflexivity. Qed.

Example marshal_gh :
  MarshalIndent (links (store ghWorld))
  = Ok ("{" +:+ newline 1 +:+ quoted "gh" +:+ ": {"
        +:+ newline 2 +:+ quoted "alias" +:+ ": " +:+ quoted "gh" +:+ ","
        +:+ newline 2 +:+ quoted "url" +:+ ": " +:+ quoted "https://github.com/x" +:+ ","
        +:+ newline 2 +:+ quoted "created_at" +:+ ": " +:+ quoted "2024-01-01T00:00:00Z" +:+ ","
        +:+ newline 2 +:+ quoted "updated_at" +:+ ": " +:+ quoted "2024-01-01T00:00:00Z"
        +:+ newline 1 +:+ "}" +:+ newline 0 +:+ "}").
Proof. vm_compute. reflexivity. Qed.

(** Member names are matched without regard to case, unknown members
    are skipped, and a member that is absent leaves the zero value. *)
Example unmarshal_folds_names :
  Unmarshal rejects
    ("{" +:+ quoted "k" +:+ ":{" +:+ quoted "ALIAS" +:+ ":" +:+ quoted "k" +:+ ","
         +:+ quoted "hits" +:+ ":[1,2.5e3,true]}}")
  = Ok (mk_map {["k" := Some (mkLink "k" EmptyString EmptyString EmptyString zero zero)]}).
Proof. vm_compute. reflexivity. Qed.

Example unmarshal_wrong_type :
  Unmarshal rejects ("{" +:+ quoted "k" +:+ ":{" +:+ quoted "url" +:+ ":1}}")
  = Err UnmarshalError.
Proof. vm_compute. reflexivity. Qed.

Example unmarshal_truncated :
  Unmarshal rejects ("{" +:+ quoted "k" +:+ ":") = Err SyntaxError.
Proof. vm_compute. reflexivity. Qed.

(** A file that holds [null] loads as the nil map, on which Create
    stops in a panic. *)
Example Create_after_loading_null :
  let w := mkWorld (store emptyWorld) (healthy {["/links.json" := "null"]}) in
  load rejects w = (Returns None, withLinks w nil_map)
  /\ Create (Some gh) (withLinks w nil_map)
     = (Panics "assignment to entry in nil map", withLinks w nil_map).
Proof. split; vm_compute; reflexivity. Qed.

(** ** Bytes, digits and strings *)

Lemma byte_val_range c : 0 <= byte_val c < 256.
Proof. unfold byte_val. pose proof (N_ascii_bounded c). lia. Qed.

Lemma byte_of_val c : byte_of (byte_val c) = c.
Proof. unfold byte_of, byte_val. rewrite N2Z.id. apply ascii_N_embedding. Qed.

Lemma byte_val_of z : 0 <= z < 256 -> byte_val (byte_of z) = z.
Proof. intros H. unfold byte_of, byte_val. rewrite N_ascii_embedding; lia. Qed.

Lemma byte_val_inj c c' : byte_val c = byte_val c' -> c = c'.
Proof. intros H. rewrite <- (byte_of_val c), <- (byte_of_val c'). by rewrite H. Qed.

Lemma digit_val n : 0 <= n <= 9 -> byte_val (digit n) = 48 + n.
Proof. intros H. unfold digit. apply byte_val_of. lia. Qed.

Lemma isDigit_digit n : 0 <= n <= 9 -> isDigit (digit n) = true.
Proof.
  intros H. unfold isDigit, in_range. rewrite digit_val by done.
  apply andb_true_iff. split; apply Z.leb_le; lia.
Qed.

Lemma sall_app p a b : sall p (a +:+ b) = sall p a && sall p b.
Proof. induction a as [|c a IH]; simpl; [done|]. rewrite IH. by rewrite andb_assoc. Qed.

Lemma slength_app a b : String.length (a +:+ b) = (String.length a + String.length b)%nat.
Proof. induction a as [|c a IH]; simpl; [done|]. by rewrite IH. Qed.

Lemma sapp_cons c a b : String c a +:+ b = String c (a +:+ b).
Proof. reflexivity. Qed.

Lemma sapp_nil b : EmptyString +:+ b = b.
Proof. reflexivity. Qed.

Ltac sapp := repeat (rewrite sapp_cons || rewrite sapp_nil).

Lemma sapp_empty_r a : a +:+ EmptyString = a.
Proof. induction a as [|c a IH]; [done|]. by rewrite sapp_cons, IH. Qed.

Lemma sapp_assoc a b c : (a +:+ b) +:+ c = a +:+ (b +:+ c).
Proof. induction a as [|x a IH]; [done|]. by rewrite !sapp_cons, IH. Qed.

Lemma length_appendInt w x : String.length (appendInt w x) = w.
Proof.
  revert x. induction w as [|w IH]; intros x; simpl; [done|].
  rewrite slength_app, IH. simpl. lia.
Qed.

Lemma sall_appendInt w x : sall isDigit (appendInt w x) = true.
Proof.
  revert x. induction w as [|w IH]; intros x; simpl; [done|].
  rewrite sall_app, IH. simpl. rewrite isDigit_digit; [done|].
  pose proof (Z.mod_pos_bound x 10). lia.
Qed.

Lemma atoi_app a b x : atoi (a +:+ b) x = atoi a x ≫= atoi b.
Proof.
  revert x. induction a as [|c a IH]; intros x; simpl; [done|].
  destruct (isDigit c); [apply IH|done].
Qed.

Lemma atoi_appendInt w x acc :
  0 <= x < 10 ^ Z.of_nat w -> atoi (appendInt w x) acc = Some (acc * 10 ^ Z.of_nat w + x).
Proof.
  revert x acc. induction w as [|w IH]; intros x acc Hx.
  - simpl in *. f_equal. lia.
  - rewrite Nat2Z.inj_succ, Z.pow_succ_r in * by lia.
    simpl. rewrite atoi_app. rewrite IH by (Z.div_mod_to_equations; lia).
    simpl. pose proof (Z.mod_pos_bound x 10).
    rewrite isDigit_digit by lia. rewrite digit_val by lia.
    f_equal. Z.div_mod_to_equations; lia.
Qed.

Lemma parseUint_appendInt w x lo hi :
  0 <= x < 10 ^ Z.of_nat w -> lo <= x <= hi -> parseUint (appendInt w x) lo hi = Some x.
Proof.
  intros Hx Hr. unfold parseUint. rewrite atoi_appendInt by done. simpl.
  replace (0 * 10 ^ Z.of_nat w + x) with x by lia.
  replace (x <? lo) with false by (symmetry; apply Z.ltb_ge; lia).
  replace (hi <? x) with false by (symmetry; apply Z.ltb_ge; lia).
  reflexivity.
Qed.

Lemma substring_0_app a b n : String.length a = n -> substring 0 n (a +:+ b) = a.
Proof.
  revert n. induction a as [|c a IH]; intros n <-; simpl.
  - by destruct b.
  - by rewrite IH.
Qed.

Lemma substring_app_skip a b n m k :
  String.length a = k -> substring (k + n) m (a +:+ b) = substring n m b.
Proof. revert k. induction a as [|c a IH]; intros k <-; simpl; [done|]. by apply IH. Qed.

Lemma get_app_skip a b n k :
  String.length a = k -> get (k + n) (a +:+ b) = get n b.
Proof. revert k. induction a as [|c a IH]; intros k <-; simpl; [done|]. by apply IH. Qed.

Lemma sdrop_app_skip a b n k :
  String.length a = k -> sdrop (k + n) (a +:+ b) = sdrop n b.
Proof. revert k. induction a as [|c a IH]; intros k <-; simpl; [done|]. by apply IH. Qed.

(** Trailing zeros carry no value: reading the trimmed digits and scaling
    gives the number the untrimmed digits denote. *)
Lemma atoi_trimZeros s acc :
  sall isDigit s = true ->
  exists v, atoi (trimZeros s) acc = Some v
    /\ atoi s acc
       = Some (v * 10 ^ (Z.of_nat (String.length s) - Z.of_nat (String.length (trimZeros s)))).
Proof.
  revert acc. induction s as [|c s IH]; intros acc Hs.
  - exists acc. simpl. split; [done|]. f_equal. lia.
  - simpl in Hs. apply andb_true_iff in Hs as [Hc Hs].
    destruct (IH (acc * 10 + (byte_val c - 48)) Hs) as (v & Hv & Hfull).
    cbn [trimZeros]. destruct (trimZeros s) as [|c' t] eqn:Ht.
    + destruct (Ascii.eqb c "0") eqn:Hz.
      * apply Ascii.eqb_eq in Hz. subst c. exists acc. split; [done|].
        cbn [atoi]. rewrite Hc. rewrite Hfull.
        simpl in Hv. injection Hv as <-. f_equal.
        cbn [String.length]. rewrite Nat2Z.inj_succ.
        change (byte_val "0") with 48. 
        replace (Z.succ (Z.of_nat (String.length s)) - Z.of_nat 0)
          with (Z.succ (Z.of_nat (String.length s) - Z.of_nat 0)) by lia.
        rewrite Z.pow_succ_r by lia. lia.
      * exists v. cbn [atoi]. rewrite Hc. simpl in Hv. injection Hv as <-.
        split; [done|]. rewrite Hfull. f_equal. f_equal. f_equal.
        cbn [String.length]. lia.
    + exists v. cbn [atoi]. rewrite Hc. split; [exact Hv|].
      rewrite Hfull. f_equal. f_equal. f_equal. cbn [String.length]. lia.
Qed.

Lemma sall_trimZeros p s : sall p s = true -> sall p (trimZeros s) = true.
Proof.
  induction s as [|c s IH]; simpl; [done|].
  intros [Hc Hs]%andb_true_iff. specialize (IH Hs).
  destruct (trimZeros s) as [|c' t].
  - destruct (Ascii.eqb c "0"); simpl; [done|]. by rewrite Hc.
  - cbn [sall] in *. by rewrite Hc, IH.
Qed.

Lemma length_trimZeros s : (String.length (trimZeros s) <= String.length s)%nat.
Proof.
  induction s as [|c s IH]; simpl; [done|].
  destruct (trimZeros s) as [|c' t].
  - destruct (Ascii.eqb c "0"); simpl; lia.
  - simpl in *. lia.
Qed.

Lemma span_app p a b :
  sall p a = true ->
  match b with String c _ => p c = false | EmptyString => True end ->
  span p (a +:+ b) = (a, b).
Proof.
  intros Ha Hb. induction a as [|c a IH]; simpl in *.
  - destruct b as [|c b]; [done|]. simpl. by rewrite Hb.
  - apply andb_true_iff in Ha as [-> Ha]. by rewrite (IH Ha).
Qed.

Lemma substring_all s n : (String.length s <= n)%nat -> substring 0 n s = s.
Proof.
  revert n. induction s as [|c s IH]; intros n Hn; simpl in *.
  - by destruct n.
  - destruct n as [|n]; [lia|]. rewrite IH; [done|lia].
Qed.
Lemma era_year (doe : Z) :
  0 <= doe < 146097 ->
  let yoe := (doe - doe / 1460 + doe / 36524 - doe / 146096) / 365 in
  let doy := doe - (365 * yoe + yoe / 4 - yoe / 100) in
  0 <= yoe < 400 /\ 0 <= doy <= 365
  /\ (doy = 365 -> yoe mod 4 = 3 /\ (yoe mod 100 = 99 -> yoe = 399)).
Proof.
  intros H yoe doy. subst yoe doy.
  repeat split; intros; Z.div_mod_to_equations; lia.
Qed.

Lemma civil_inverse (days : Z) :
  match civil days with
  | (y, m, d) => daysSinceEpoch y m d = days /\ 1 <= m <= 12 /\ 1 <= d <= daysIn m y
  end.
Proof.
  unfold civil.
  set (z := days + 719468).
  set (era := z / 146097).
  set (doe := z - era * 146097).
  assert (Hdoe : 0 <= doe < 146097) by (subst doe era; Z.div_mod_to_equations; lia).
  pose proof (era_year doe Hdoe) as Hy. cbv zeta in Hy.
  set (yoe := (doe - doe / 1460 + doe / 36524 - doe / 146096) / 365) in *.
  set (doy := doe - (365 * yoe + yoe / 4 - yoe / 100)) in *.
  destruct Hy as (Hyoe & Hdoy & Hleap).
  set (mp := (5 * doy + 2) / 153).
  assert (Hmp : 0 <= mp <= 11) by (subst mp; Z.div_mod_to_equations; lia).
  set (d := doy - (153 * mp + 2) / 5 + 1).
  assert (Hd : 1 <= d <= 31) by (subst d mp; Z.div_mod_to_equations; lia).
  split; [|split].
  - unfold daysSinceEpoch.
    destruct (mp <? 10) eqn:Hlt.
    + apply Z.ltb_lt in Hlt.
      replace (mp + 3 <=? 2) with false by (symmetry; apply Z.leb_gt; lia).
      replace (2 <? mp + 3) with true by (symmetry; apply Z.ltb_lt; lia).
      replace ((yoe + era * 400) / 400) with era by (Z.div_mod_to_equations; lia).
      replace (mp + 3 - 3) with mp by lia.
      replace (yoe + era * 400 - era * 400) with yoe by lia.
      subst d doy doe z. lia.
    + apply Z.ltb_ge in Hlt.
      replace (mp - 9 <=? 2) with true by (symmetry; apply Z.leb_le; lia).
      replace (2 <? mp - 9) with false by (symmetry; apply Z.ltb_ge; lia).
      replace (yoe + era * 400 + 1 - 1) with (yoe + era * 400) by lia.
      replace ((yoe + era * 400) / 400) with era by (Z.div_mod_to_equations; lia).
      replace (mp - 9 + 9) with mp by lia.
      replace (yoe + era * 400 - era * 400) with yoe by lia.
      subst d doy doe z. lia.
  - destruct (mp <? 10) eqn:Hlt; [apply Z.ltb_lt in Hlt|apply Z.ltb_ge in Hlt]; lia.
  - split; [lia|].
    unfold daysIn, isLeap.
    destruct (mp <? 10) eqn:Hlt; [apply Z.ltb_lt in Hlt|apply Z.ltb_ge in Hlt].
    + replace (mp + 3 <=? 2) with false by (symmetry; apply Z.leb_gt; lia).
      replace (mp + 3 =? 2) with false by (symmetry; apply Z.eqb_neq; lia).
      subst d.
      assert (Hk : (Z.to_nat mp < 10)%nat) by lia.
      assert (Hc : mp = Z.of_nat (Z.to_nat mp)) by lia.
      revert Hk Hc. generalize (Z.to_nat mp) as k. intros k Hk Hc.
      do 10 (destruct k as [|k];
             [rewrite Hc; simpl; subst mp; Z.div_mod_to_equations; lia|]).
      lia.
    + replace (mp - 9 <=? 2) with true by (symmetry; apply Z.leb_le; lia).
      assert (Hc : mp = 10 \/ mp = 11) by lia.
      destruct Hc as [Hc|Hc].
      * subst d. rewrite Hc. simpl. subst mp. Z.div_mod_to_equations; lia.
      * subst d. rewrite Hc. simpl.
        assert (Hdoy' : doy <= 365) by lia.
        destruct ((yoe + era * 400 + 1) mod 4 =? 0) eqn:E4; simpl.
        -- destruct ((yoe + era * 400 + 1) mod 100 =? 0) eqn:E100; simpl.
           ++ destruct ((yoe + era * 400 + 1) mod 400 =? 0) eqn:E400; simpl.
              ** subst mp. Z.div_mod_to_equations; lia.
              ** apply Z.eqb_neq in E400. apply Z.eqb_eq in E100.
                 assert (doy <> 365).
                 { intros Hx. destruct (Hleap Hx) as [H4 H100].
                   assert (yoe mod 100 = 99) by (Z.div_mod_to_equations; lia).
                   specialize (H100 H). apply E400. subst yoe.
                   Z.div_mod_to_equations; lia. }
                 subst mp. Z.div_mod_to_equations; lia.
           ++ subst mp. Z.div_mod_to_equations; lia.
        -- apply Z.eqb_neq in E4.
           assert (doy <> 365).
           { intros Hx. destruct (Hleap Hx) as [H4 H100]. apply E4.
             Z.div_mod_to_equations; lia. }
           subst mp. Z.div_mod_to_equations; lia.
Qed.

Lemma header (Y M D H Mi S tail : string) :
  String.length Y = 4%nat -> String.length M = 2%nat -> String.length D = 2%nat ->
  String.length H = 2%nat -> String.length Mi = 2%nat -> String.length S = 2%nat ->
  let T := Y +:+ "-" +:+ M +:+ "-" +:+ D +:+ "T" +:+ H +:+ ":" +:+ Mi +:+ ":" +:+ S +:+ tail in
  (String.length T <? 19)%nat = false
  /\ substring 0 4 T = Y /\ substring 5 2 T = M /\ substring 8 2 T = D
  /\ substring 11 2 T = H /\ substring 14 2 T = Mi /\ substring 17 2 T = S
  /\ (at_ "-" T 4 && at_ "-" T 7 && at_ "T" T 10 && at_ ":" T 13 && at_ ":" T 16) = true
  /\ sdrop 19 T = tail.
Proof.
  intros HY HM HD HH HMi HS.
  destruct Y as [|y1 [|y2 [|y3 [|y4 [|]]]]]; try discriminate.
  destruct M as [|m1 [|m2 [|]]]; try discriminate.
  destruct D as [|d1 [|d2 [|]]]; try discriminate.
  destruct H as [|h1 [|h2 [|]]]; try discriminate.
  destruct Mi as [|i1 [|i2 [|]]]; try discriminate.
  destruct S as [|s1 [|s2 [|]]]; try discriminate.
  repeat split; destruct tail; reflexivity.
Qed.

Lemma clock_range (t : Time) :
  match clock t with
  | (h, m, s) =>
      0 <= h <= 23 /\ 0 <= m <= 59 /\ 0 <= s <= 59
      /\ h * 3600 + m * 60 + s = abs t mod 86400
  end.
Proof. unfold clock. cbv zeta. repeat split; Z.div_mod_to_equations; lia. Qed.

Lemma zone_first_not_digit (off : Z) :
  match appendZone off +:+ EmptyString with
  | String c _ => isDigit c = false /\ Ascii.eqb c "." = false
  | EmptyString => False
  end.
Proof.
  unfold appendZone. destruct (off =? 0); [done|].
  destruct (Z.quot off 60 <? 0); done.
Qed.

Lemma appendZone_cases (off : Z) :
  (off = 0 /\ appendZone off = "Z")
  \/ (off <> 0 /\ exists sign rest, appendZone off = String sign rest
        /\ isDigit sign = false /\ Ascii.eqb sign "." = false).
Proof.
  unfold appendZone. destruct (off =? 0) eqn:E.
  - left. apply Z.eqb_eq in E. done.
  - right. apply Z.eqb_neq in E. split; [done|].
    destruct (Z.quot off 60 <? 0); eexists _, _; (split; [reflexivity|done]).
Qed.

Lemma trimmed_nonempty (ns : Z) :
  0 < ns < 1000000000 ->
  exists c r, trimZeros (appendInt 9 ns) = String c r /\ isDigit c = true.
Proof.
  intros Hns.
  pose proof (sall_appendInt 9 ns) as Hall.
  destruct (atoi_trimZeros (appendInt 9 ns) 0 Hall) as (v & Hv & Hfull).
  rewrite atoi_appendInt in Hfull by (simpl; lia).
  pose proof (sall_trimZeros isDigit _ Hall) as Htrim.
  remember (trimZeros (appendInt 9 ns)) as tz eqn:Htz.
  destruct tz as [|c r].
  - cbn [atoi] in Hv.
    assert (Heq : 0 * 10 ^ Z.of_nat 9 + ns
                  = v * 10 ^ (Z.of_nat (String.length (appendInt 9 ns))
                              - Z.of_nat (String.length EmptyString)))
      by congruence.
    assert (v = 0) by congruence. subst v. lia.
  - exists c, r. split; [done|]. cbn [sall] in Htrim.
    by apply andb_true_iff in Htrim as [? _].
Qed.

Lemma parseNanoseconds_trimmed (ns : Z) :
  0 <= ns < 1000000000 ->
  parseNanoseconds (trimZeros (appendInt 9 ns)) = ns.
Proof.
  intros Hns. unfold parseNanoseconds.
  pose proof (length_trimZeros (appendInt 9 ns)) as Hlen.
  rewrite length_appendInt in Hlen.
  rewrite substring_all by done.
  pose proof (sall_appendInt 9 ns) as Hall.
  destruct (atoi_trimZeros (appendInt 9 ns) 0 Hall) as (v & Hv & Hfull).
  rewrite atoi_appendInt in Hfull by (simpl; lia).
  rewrite length_appendInt in Hfull.
  remember (trimZeros (appendInt 9 ns)) as tz eqn:Htz.
  rewrite Hv. change (default 0 (Some v)) with v.
  assert (Heq : 0 * 10 ^ Z.of_nat 9 + ns
                = v * 10 ^ (Z.of_nat 9 - Z.of_nat (String.length tz))) by congruence.
  change (Z.of_nat 9) with 9 in Heq. lia.
Qed.

(** The fraction of a second, as [parseRFC3339] reads it back. *)
Lemma fraction_read (ns : Z) (zone : string) :
  0 <= ns < 1000000000 ->
  match zone with
  | String c _ => isDigit c = false /\ Ascii.eqb c "." = false
  | EmptyString => False
  end ->
  match appendNano ns +:+ zone with
  | String "." (String c r) =>
      if isDigit c then
        let '(ds, r') := span isDigit (String c r) in (parseNanoseconds ds, r')
      else (0, appendNano ns +:+ zone)
  | _ => (0, appendNano ns +:+ zone)
  end = (ns, zone).
Proof.
  intros Hns Hzone. unfold appendNano. destruct (ns =? 0) eqn:E.
  - apply Z.eqb_eq in E. subst ns. rewrite sapp_nil.
    destruct zone as [|c z]; [done|]. destruct Hzone as [Hd Hdot].
    destruct c as [[] [] [] [] [] [] [] []]; try reflexivity; discriminate.
  - apply Z.eqb_neq in E.
    destruct (trimmed_nonempty ns ltac:(lia)) as (c & r & Ht & Hc).
    rewrite sapp_cons. rewrite Ht. rewrite sapp_cons. rewrite Hc.
    change (String c (r +:+ zone)) with (String c r +:+ zone). rewrite <- Ht.
    rewrite span_app.
    + by rewrite parseNanoseconds_trimmed.
    + apply sall_trimZeros, sall_appendInt.
    + destruct zone; [done|]. tauto.
Qed.

Lemma zone_read (off u ns : Z) :
  off mod 60 = 0 -> -86400 < off < 86400 ->
  let s := appendZone off in
  (if String.eqb s "Z" then Some (mkTime u ns 0 None) else
   if negb (String.length s =? 6)%nat then None else
   hr ← parseUint (substring 1 2 s) 0 23;
   mm ← parseUint (substring 4 2 s) 0 59;
   if negb ((at_ "-" s 0 || at_ "+" s 0) && at_ ":" s 3) then None else
   let zoneOffset := (hr * 60 + mm) * 60 in
   let zoneOffset := if at_ "-" s 0 then - zoneOffset else zoneOffset in
   Some {| unixSec := unixSec (mkTime u ns 0 None) - zoneOffset; nsec := ns;
           offset := zoneOffset; mono := None |})
  = Some (mkTime (u - off) ns off None).
Proof.
  intros Hmod Hrange. unfold appendZone. destruct (off =? 0) eqn:E.
  - apply Z.eqb_eq in E. subst off. cbv zeta. simpl. do 2 f_equal. lia.
  - apply Z.eqb_neq in E. cbv zeta.
    set (zone := Z.quot off 60).
    assert (Hhr : 0 <= Z.abs zone / 60 <= 23)
      by (subst zone; Z.to_euclidean_division_equations; lia).
    assert (Hmm : 0 <= Z.abs zone mod 60 <= 59)
      by (subst zone; Z.to_euclidean_division_equations; lia).
    pose proof (parseUint_appendInt 2 (Z.abs zone / 60) 0 23 ltac:(simpl; lia) Hhr) as Ph.
    pose proof (parseUint_appendInt 2 (Z.abs zone mod 60) 0 59 ltac:(simpl; lia) Hmm) as Pm.
    pose proof (length_appendInt 2 (Z.abs zone / 60)) as Lh.
    pose proof (length_appendInt 2 (Z.abs zone mod 60)) as Lm.
    destruct (appendInt 2 (Z.abs zone / 60)) as [|a1 [|a2 [|]]]; try discriminate.
    destruct (appendInt 2 (Z.abs zone mod 60)) as [|b1 [|b2 [|]]]; try discriminate.
    destruct (zone <? 0) eqn:Hs.
    + apply Z.ltb_lt in Hs.
      change (substring 1 2 (String "-" (String a1 (String a2 EmptyString) +:+ ":" +:+ String b1 (String b2 EmptyString))))
        with (String a1 (String a2 EmptyString)).
      change (substring 4 2 (String "-" (String a1 (String a2 EmptyString) +:+ ":" +:+ String b1 (String b2 EmptyString))))
        with (String b1 (String b2 EmptyString)).
      rewrite Ph, Pm. simpl. do 2 f_equal.
      all: subst zone; Z.to_euclidean_division_equations; lia.
    + apply Z.ltb_ge in Hs.
      change (substring 1 2 (String "+" (String a1 (String a2 EmptyString) +:+ ":" +:+ String b1 (String b2 EmptyString))))
        with (String a1 (String a2 EmptyString)).
      change (substring 4 2 (String "+" (String a1 (String a2 EmptyString) +:+ ":" +:+ String b1 (String b2 EmptyString))))
        with (String b1 (String b2 EmptyString)).
      rewrite Ph, Pm. simpl. do 2 f_equal.
      all: subst zone; Z.to_euclidean_division_equations; lia.
Qed.

(** What [appendFormatRFC3339] writes for a representable time,
    [parseRFC3339] reads back as the same instant in the same zone; the
    monotonic reading is not written. *)
Theorem parse_format (t : Time) :
  representable t = true ->
  parseRFC3339 (appendFormatRFC3339 t) = Some (Round0 t).
Proof.
  unfold representable. rewrite !andb_true_iff.
  intros [[[[[[Hy0 Hy1] Hn0] Hn1] Hmod] Ho0] Ho1].
  apply Z.leb_le in Hy0, Hy1, Hn0. apply Z.ltb_lt in Hn1, Ho0, Ho1. apply Z.eqb_eq in Hmod.
  unfold appendFormatRFC3339, Year, date in *.
  pose proof (civil_inverse (abs t / 86400)) as Hciv.
  pose proof (clock_range t) as Hclk.
  destruct (civil (abs t / 86400)) as [[y m] d].
  destruct (clock t) as [[h mi] s].
  cbn [fst snd] in Hy0, Hy1.
  destruct Hciv as (Hdays & Hm & Hd).
  destruct Hclk as (Hh & Hmi & Hs & Hsecs).
  assert (Hd31 : d <= 31).
  { unfold daysIn in Hd. repeat destruct (_ =? _); try destruct (isLeap y); simpl in Hd; lia. }
  set (tail := appendNano (nsec t) +:+ appendZone (offset t)).
  destruct (header (appendInt 4 y) (appendInt 2 m) (appendInt 2 d)
              (appendInt 2 h) (appendInt 2 mi) (appendInt 2 s) tail)
    as (Hlen & H1 & H2 & H3 & H4 & H5 & H6 & Hsep & Hdrop);
    try apply length_appendInt.
  unfold parseRFC3339.
  rewrite Hlen, H1, H2, H3, H4, H5, H6, Hsep, Hdrop.
  rewrite (parseUint_appendInt 4 y) by (simpl; lia). cbn [mbind option_bind].
  rewrite (parseUint_appendInt 2 m) by (simpl; lia). cbn [mbind option_bind].
  rewrite (parseUint_appendInt 2 d) by (simpl; lia). cbn [mbind option_bind].
  rewrite (parseUint_appendInt 2 h) by (simpl; lia). cbn [mbind option_bind].
  rewrite (parseUint_appendInt 2 mi) by (simpl; lia). cbn [mbind option_bind].
  rewrite (parseUint_appendInt 2 s) by (simpl; lia). cbn [mbind option_bind negb].
  subst tail.
  pose proof (zone_first_not_digit (offset t)) as Hz. rewrite sapp_empty_r in Hz.
  rewrite (fraction_read (nsec t) (appendZone (offset t))) by (done || lia).
  unfold Date.
  rewrite (zone_read (offset t) _ (nsec t)) by (done || lia).
  unfold Round0. f_equal. f_equal. rewrite Hdays. unfold abs in *.
  Z.div_mod_to_equations; lia.
Qed.

(** ** JSON strings *)

Lemma eqb_byte (c d : ascii) : Ascii.eqb c d = (byte_val c =? byte_val d).
Proof.
  destruct (Ascii.eqb_spec c d) as [->|Hne].
  - by rewrite Z.eqb_refl.
  - symmetry. apply Z.eqb_neq. intros H. by apply Hne, byte_val_inj.
Qed.

(** Tests on characters become tests on their codes. *)
Ltac codes :=
  unfold htmlSafe, isEscape, isHex, isSpace, isDigit, utf8.cont, in_range, utf8.RuneSelf in *;
  rewrite ?eqb_byte in *;
  change (byte_val dq) with 34 in *; change (byte_val backslash) with 92 in *;
  repeat match goal with
  | |- context [byte_val (Ascii ?a ?b ?c ?d ?e ?f ?g ?h)] =>
      let v := eval vm_compute in (byte_val (Ascii a b c d e f g h)) in
      change (byte_val (Ascii a b c d e f g h)) with v
  | H : context [byte_val (Ascii ?a ?b ?c ?d ?e ?f ?g ?h)] |- _ =>
      let v := eval vm_compute in (byte_val (Ascii a b c d e f g h)) in
      change (byte_val (Ascii a b c d e f g h)) with v in H
  end.

Lemma scan_plain (c : ascii) (rest : string) :
  byte_val c <> 34 -> byte_val c <> 92 -> 32 <= byte_val c ->
  scanString (String c rest) = cons1 c <$> scanString rest.
Proof.
  intros Hq Hb Hc. cbn [scanString].
  rewrite !eqb_byte. change (byte_val dq) with 34. change (byte_val backslash) with 92.
  replace (byte_val c =? 34) with false by (symmetry; by apply Z.eqb_neq).
  replace (byte_val c =? 92) with false by (symmetry; by apply Z.eqb_neq).
  replace (byte_val c <? 32) with false by (symmetry; apply Z.ltb_ge; lia).
  reflexivity.
Qed.

Lemma hex_range (n : Z) : 0 <= n <= 15 ->
  isHex (hex n) = true /\ hexVal (hex n) = Some n.
Proof.
  intros H. rewrite <- (Z2Nat.id n) by lia.
  assert (Hk : (Z.to_nat n < 16)%nat) by lia.
  revert Hk. generalize (Z.to_nat n) as k. intros k Hk.
  do 16 (destruct k as [|k]; [by vm_compute|]). lia.
Qed.

Lemma nibbles (n : Z) : 0 <= n < 256 ->
  0 <= Z.shiftr n 4 <= 15 /\ 0 <= Z.land n 15 <= 15
  /\ Z.shiftr n 4 * 16 + Z.land n 15 = n.
Proof.
  intros H. rewrite Z.shiftr_div_pow2 by lia.
  change 15 with (Z.ones 4). rewrite Z.land_ones by lia.
  change (2 ^ 4) with 16. change (Z.ones 4) with 15.
  Z.div_mod_to_equations; lia.
Qed.

(** One ASCII byte, as the encoder writes it, is read by the scanner as
    a piece of the string body. *)
Lemma scan_escapeByte (c : ascii) (rest : string) :
  byte_val c < 128 ->
  scanString (escapeByte c +:+ rest) = prepend (escapeByte c) <$> scanString rest.
Proof.
  intros Hc. pose proof (byte_val_range c) as Hr. unfold escapeByte.
  destruct (htmlSafe c) eqn:Hsafe.
  { sapp. rewrite scan_plain.
    - by destruct (scanString rest) as [[x y]|].
    - codes. intros E. rewrite E in Hsafe. by vm_compute in Hsafe.
    - codes. intros E. rewrite E in Hsafe. by vm_compute in Hsafe.
    - codes. apply andb_true_iff in Hsafe as [Hs _].
      apply andb_true_iff in Hs as [Hs _]. by apply Z.leb_le in Hs. }
  destruct (Ascii.eqb c dq || Ascii.eqb c backslash) eqn:Hq.
  { apply orb_true_iff in Hq as [->%Ascii.eqb_eq | ->%Ascii.eqb_eq];
      sapp; cbn; by destruct (scanString rest) as [[x y]|]. }
  repeat match goal with
  | |- context [if Ascii.eqb c ?k then _ else _] =>
      destruct (Ascii.eqb c k);
        [sapp; cbn; by destruct (scanString rest) as [[x y]|]|]
  end.
  destruct (nibbles (byte_val c) Hr) as (Hhi & Hlo & _).
  destruct (hex_range _ Hhi) as [Hh1 _]. destruct (hex_range _ Hlo) as [Hh2 _].
  sapp. cbn [scanString].
  change (Ascii.eqb backslash dq) with false. cbv iota.
  change (Ascii.eqb backslash backslash) with true. cbv iota.
  change (isEscape "u") with false. cbv iota.
  change (Ascii.eqb "u" "u") with true. cbv iota.
  change (isHex "0") with true. rewrite Hh1, Hh2. cbn [andb].
  by destruct (scanString rest) as [[x y]|].
Qed.

Lemma unquote_escapeByte (c : ascii) (rest : string) :
  byte_val c < 128 ->
  unquote (escapeByte c +:+ rest) = String c <$> unquote rest.
Proof.
  intros Hc. pose proof (byte_val_range c) as Hr. unfold escapeByte.
  destruct (htmlSafe c) eqn:Hsafe.
  { sapp. cbn [unquote]. codes.
    apply andb_true_iff in Hsafe as [Hs Hn]. apply andb_true_iff in Hs as [Hs _].
    apply Z.leb_le in Hs. apply negb_true_iff in Hn.
    repeat (apply orb_false_iff in Hn as [Hn ?]).
    replace (byte_val c =? 92) with false by done.
    replace (byte_val c =? 34) with false by done.
    replace (byte_val c <? 32) with false by (symmetry; apply Z.ltb_ge; lia).
    replace (byte_val c <? 128) with true by (symmetry; apply Z.ltb_lt; lia).
    reflexivity. }
  destruct (Ascii.eqb c dq || Ascii.eqb c backslash) eqn:Hq.
  { apply orb_true_iff in Hq as [->%Ascii.eqb_eq | ->%Ascii.eqb_eq];
      sapp; cbn; by destruct (unquote rest). }
  repeat match goal with
  | |- context [if Ascii.eqb c ?k then _ else _] =>
      destruct (Ascii.eqb c k) eqn:?;
        [match goal with H : Ascii.eqb c _ = true |- _ => apply Ascii.eqb_eq in H; subst c end;
         sapp; cbn; by destruct (unquote rest)|]
  end.
  destruct (nibbles (byte_val c) Hr) as (Hhi & Hlo & Hsum).
  destruct (hex_range _ Hhi) as [_ Hh1]. destruct (hex_range _ Hlo) as [_ Hh2].
  sapp. cbn [unquote].
  change (Ascii.eqb backslash backslash) with true. cbv iota.
  change (unescape "u") with (@None ascii). cbv iota.
  change (Ascii.eqb "u" "u") with true. cbv iota.
  unfold getu4. change (hexVal "0") with (Some 0). rewrite Hh1, Hh2.
  cbn [mbind option_bind].
  replace ((((0 * 16 + 0) * 16 + Z.shiftr (byte_val c) 4) * 16 + Z.land (byte_val c) 15))
    with (byte_val c) by lia.
  replace (utf16.IsSurrogate (byte_val c)) with false
    by (symmetry; unfold utf16.IsSurrogate; apply andb_false_iff; left; apply Z.leb_gt; lia).
  unfold utf8.EncodeRune.
  replace ((0 <=? byte_val c) && (byte_val c <=? 127)) with true
    by (symmetry; apply andb_true_iff; split; apply Z.leb_le; lia).
  rewrite byte_of_val. by destruct (unquote rest).
Qed.

Lemma string_length_ind (P : string -> Prop) :
  (forall s, (forall s', (String.length s' < String.length s)%nat -> P s') -> P s) ->
  forall s, P s.
Proof.
  intros H s. remember (String.length s) as n eqn:Hn.
  revert s Hn. induction n as [n IH] using lt_wf_ind. intros s ->.
  apply H. intros s' Hlt. by apply (IH _ Hlt).
Qed.

(** What a lead byte and its followers look like when [seqLen] accepts
    them; the answer does not depend on what comes after the sequence. *)
Lemma seqLen_spec (c0 : ascii) (s1 : string) :
  match utf8.seqLen c0 s1 with
  | 2%nat => exists c1 s2, s1 = String c1 s2 /\ 128 <= byte_val c1
              /\ forall x, utf8.seqLen c0 (String c1 x) = 2%nat
  | 3%nat => exists c1 c2 s3, s1 = String c1 (String c2 s3)
              /\ 128 <= byte_val c1 /\ 128 <= byte_val c2
              /\ forall x, utf8.seqLen c0 (String c1 (String c2 x)) = 3%nat
  | 4%nat => exists c1 c2 c3 s4, s1 = String c1 (String c2 (String c3 s4))
              /\ 128 <= byte_val c1 /\ 128 <= byte_val c2 /\ 128 <= byte_val c3
              /\ forall x, utf8.seqLen c0 (String c1 (String c2 (String c3 x))) = 4%nat
  | _ => True
  end.
Proof.
  unfold utf8.seqLen. destruct s1 as [|c1 s2]; [exact I|].
  destruct (in_range 194 223 c0) eqn:H2.
  { destruct (utf8.cont c1) eqn:Hc1; [|exact I].
    exists c1, s2. split; [done|]. split; [|by rewrite Hc1].
    codes. apply andb_true_iff in Hc1 as [?%Z.leb_le _]. lia. }
  destruct s2 as [|c2 s3]; [exact I|].
  match goal with |- context [if ?b then _ else _] => destruct b eqn:H3 end.
  { destruct (utf8.cont c2) eqn:Hc2; [|exact I].
    exists c1, c2, s3. split; [done|].
    split; [|split; [|by rewrite H3, Hc2]].
    - codes. repeat (apply orb_true_iff in H3 as [H3|H3]);
        apply andb_true_iff in H3 as [_ H3];
        apply andb_true_iff in H3 as [?%Z.leb_le _]; lia.
    - codes. apply andb_true_iff in Hc2 as [?%Z.leb_le _]. lia. }
  destruct s3 as [|c3 s4]; [exact I|].
  match goal with |- context [if ?b then _ else _] => destruct b eqn:H4 end; [|exact I].
  exists c1, c2, c3, s4. split; [done|].
  split; [|split; [|split; [|by rewrite H3, H4]]].
  - apply andb_true_iff in H4 as [H4 _]. apply andb_true_iff in H4 as [H4 _].
    codes. repeat (apply orb_true_iff in H4 as [H4|H4]);
      apply andb_true_iff in H4 as [_ H4];
      apply andb_true_iff in H4 as [?%Z.leb_le _]; lia.
  - apply andb_true_iff in H4 as [H4 _]. apply andb_true_iff in H4 as [_ Hc2].
    codes. apply andb_true_iff in Hc2 as [?%Z.leb_le _]. lia.
  - apply andb_true_iff in H4 as [_ Hc3].
    codes. apply andb_true_iff in Hc3 as [?%Z.leb_le _]. lia.
Qed.

Lemma scan_high (c : ascii) (rest : string) :
  128 <= byte_val c -> scanString (String c rest) = cons1 c <$> scanString rest.
Proof. intros H. apply scan_plain; lia. Qed.

(** The scanner reads a string the encoder wrote up to its closing
    quote: the body comes back as it was written. *)
Lemma scan_appendString (s rest : string) :
  scanString (appendString s +:+ String dq rest) = Some (appendString s, rest).
Proof.
  induction s as [s IH] using string_length_ind.
  destruct s as [|c0 s1].
  { cbn [appendString]. rewrite sapp_nil. cbn [scanString].
    change (Ascii.eqb dq dq) with true. reflexivity. }
  cbn [appendString]. destruct (byte_val c0 <? utf8.RuneSelf) eqn:Hascii.
  { apply Z.ltb_lt in Hascii. rewrite sapp_assoc, scan_escapeByte by done.
    rewrite IH by (simpl; lia). reflexivity. }
  apply Z.ltb_ge in Hascii. change utf8.RuneSelf with 128 in Hascii.
  pose proof (seqLen_spec c0 s1) as Hseq.
  assert (Hbad : forall t, (String.length t <= String.length s1)%nat ->
            scanString ((String backslash ("ufffd" +:+ appendString t)) +:+ String dq rest)
            = Some (String backslash ("ufffd" +:+ appendString t), rest)).
  { intros t Ht. sapp. cbn [scanString].
    change (Ascii.eqb backslash dq) with false. cbv iota.
    change (Ascii.eqb backslash backslash) with true. cbv iota.
    change (isEscape "u") with false. cbv iota.
    change (Ascii.eqb "u" "u") with true. cbv iota.
    change (isHex "f" && isHex "f" && isHex "f" && isHex "d") with true. cbv iota.
    rewrite IH by (simpl; lia). reflexivity. }
  destruct (utf8.seqLen c0 s1) as [|[|[|[|[|n]]]]] eqn:Hlen;
    try (destruct s1 as [|? [|? [|? [|? ?]]]]; apply Hbad; simpl; lia).
  - destruct Hseq as (c1 & s2 & -> & Hc1 & _).
    sapp. rewrite scan_high by done. rewrite scan_high by done.
    rewrite IH by (simpl; lia). reflexivity.
  - destruct Hseq as (c1 & c2 & s3 & -> & Hc1 & Hc2 & _).
    match goal with |- context [if ?b then _ else _] => destruct b eqn:Hsep end.
    + apply andb_true_iff in Hsep as [_ Hsep].
      sapp. cbn [scanString].
      change (Ascii.eqb backslash dq) with false. cbv iota.
      change (Ascii.eqb backslash backslash) with true. cbv iota.
      change (isEscape "u") with false. cbv iota.
      change (Ascii.eqb "u" "u") with true. cbv iota.
      apply orb_true_iff in Hsep as [->%Ascii.eqb_eq | ->%Ascii.eqb_eq];
        cbn; rewrite IH by (simpl; lia); reflexivity.
    + sapp. rewrite !scan_high by done.
      rewrite IH by (simpl; lia). reflexivity.
  - destruct Hseq as (c1 & c2 & c3 & s4 & -> & Hc1 & Hc2 & Hc3 & _).
    sapp. rewrite !scan_high by done.
    rewrite IH by (simpl; lia). reflexivity.
Qed.

Lemma unquote_high (c0 : ascii) (s1 : string) :
  128 <= byte_val c0 ->
  unquote (String c0 s1) =
  match utf8.seqLen c0 s1, s1 with
  | 2%nat, String c1 s2 => (fun r => String c0 (String c1 r)) <$> unquote s2
  | 3%nat, String c1 (String c2 s3) =>
      (fun r => String c0 (String c1 (String c2 r))) <$> unquote s3
  | 4%nat, String c1 (String c2 (String c3 s4)) =>
      (fun r => String c0 (String c1 (String c2 (String c3 r)))) <$> unquote s4
  | _, _ => (append (utf8.EncodeRune utf8.RuneError)) <$> unquote s1
  end.
Proof.
  intros H. cbn [unquote]. codes.
  replace (byte_val c0 =? 92) with false by (symmetry; apply Z.eqb_neq; lia).
  replace (byte_val c0 =? 34) with false by (symmetry; apply Z.eqb_neq; lia).
  replace (byte_val c0 <? 32) with false by (symmetry; apply Z.ltb_ge; lia).
  replace (byte_val c0 <? 128) with false by (symmetry; apply Z.ltb_ge; lia).
  reflexivity.
Qed.

(** Unquoting what the encoder wrote gives the string back, when the
    string is well-formed UTF-8. *)
Lemma unquote_appendString (s : string) :
  utf8.ValidString s = true -> unquote (appendString s) = Some s.
Proof.
  induction s as [s IH] using string_length_ind.
  destruct s as [|c0 s1]; [done|].
  cbn [utf8.ValidString appendString].
  destruct (byte_val c0 <? utf8.RuneSelf) eqn:Hascii.
  { intros Hv. apply Z.ltb_lt in Hascii. rewrite unquote_escapeByte by done.
    rewrite IH by (done || simpl; lia). reflexivity. }
  apply Z.ltb_ge in Hascii. change utf8.RuneSelf with 128 in Hascii.
  pose proof (seqLen_spec c0 s1) as Hseq.
  destruct (utf8.seqLen c0 s1) as [|[|[|[|[|n]]]]] eqn:Hlen;
    try (destruct s1 as [|? [|? [|? [|? ?]]]]; discriminate).
  - destruct Hseq as (c1 & s2 & -> & Hc1 & Hx). intros Hv.
    rewrite unquote_high by done. rewrite Hx.
    rewrite IH by (done || simpl; lia). reflexivity.
  - destruct Hseq as (c1 & c2 & s3 & -> & Hc1 & Hc2 & Hx). intros Hv.
    match goal with |- context [if ?b then _ else _] => destruct b eqn:Hsep end.
    + apply andb_true_iff in Hsep as [Hsep Hc]. apply andb_true_iff in Hsep as [H0 H1].
      apply Ascii.eqb_eq in H0, H1. subst c0 c1.
      apply orb_true_iff in Hc as [->%Ascii.eqb_eq | ->%Ascii.eqb_eq].
      * change (unquote (String backslash ("u202" +:+
                  String (hex (Z.land (byte_val "168") 15)) (appendString s3))))
          with (append (utf8.EncodeRune 8232) <$> unquote (appendString s3)).
        rewrite IH by (done || simpl; lia). reflexivity.
      * change (unquote (String backslash ("u202" +:+
                  String (hex (Z.land (byte_val "169") 15)) (appendString s3))))
          with (append (utf8.EncodeRune 8233) <$> unquote (appendString s3)).
        rewrite IH by (done || simpl; lia). reflexivity.
    + rewrite unquote_high by done. rewrite Hx.
      rewrite IH by (done || simpl; lia). reflexivity.
  - destruct Hseq as (c1 & c2 & c3 & s4 & -> & Hc1 & Hc2 & Hc3 & Hx). intros Hv.
    rewrite unquote_high by done. rewrite Hx.
    rewrite IH by (done || simpl; lia). reflexivity.
Qed.

(** ** The parser on what [render] writes *)

Lemma skipSpace_blank (ws s : string) : blank ws -> skipSpace (ws +:+ s) = skipSpace s.
Proof.
  unfold blank. induction ws as [|c ws IH]; [done|].
  cbn [sall]. intros [Hc Hws]%andb_true_iff. rewrite sapp_cons. cbn [skipSpace].
  rewrite Hc. by apply IH.
Qed.

Lemma blank_concat (l : list string) :
  Forall blank l -> blank (String.concat EmptyString l).
Proof.
  unfold blank. induction l as [|x l IH]; [done|].
  intros [Hx Hl]%Forall_cons. destruct l as [|y l]; [done|].
  change (String.concat EmptyString (x :: y :: l))
    with (x +:+ EmptyString +:+ String.concat EmptyString (y :: l)).
  rewrite !sall_app, Hx, (IH Hl). reflexivity.
Qed.

Lemma blank_newline (level : nat) : blank (newline level).
Proof.
  unfold newline. unfold blank. cbn [sall]. change (isSpace "010") with true. cbn [andb].
  apply blank_concat. induction level as [|n IH]; constructor; done.
Qed.

Lemma value_blank (d : nat) (ws s : string) :
  blank ws -> value d (ws +:+ s) = value d s.
Proof. intros H. destruct d; cbn [value]; by rewrite skipSpace_blank. Qed.

Lemma value_null (d : nat) (rest : string) :
  value d ("null" +:+ rest) = Some (VNull, rest).
Proof. destruct d, rest; reflexivity. Qed.

Lemma value_string (d : nat) (raw rest : string) :
  scannable raw -> value d (quoted raw +:+ rest) = Some (VString raw, rest).
Proof.
  intros H. unfold quoted. rewrite sapp_cons, sapp_assoc, sapp_cons, sapp_nil.
  destruct d; cbn [value skipSpace]; change (isSpace dq) with false; cbv iota;
    change (Ascii.eqb dq "{") with false; change (Ascii.eqb dq "[") with false;
    change (Ascii.eqb dq dq) with true; cbv iota; rewrite H; reflexivity.
Qed.

Lemma concat_cons2 (sep x y : string) (l : list string) :
  String.concat sep (x :: y :: l) = x +:+ sep +:+ String.concat sep (y :: l).
Proof. reflexivity. Qed.

Section MembersRead.
Variable pv : string -> option (Value * string).
Variable sub : Value -> string.
Variables ws1 ws0 : string.
Hypothesis blank1 : blank ws1.
Hypothesis blank0 : blank ws0.

(** One member and what follows it. *)
Lemma member_step (n : nat) (k : string) (v : Value) (after : string) :
  scannable k -> reads pv sub v ->
  members pv (S n) (ws1 +:+ memberText sub (k, v) +:+ after)
  = match skipSpace after with
    | String c s5 =>
        if Ascii.eqb c "," then
          '(ms, s6) ← members pv n s5; Some ((k, v) :: ms, s6)
        else if Ascii.eqb c "}" then Some ([(k, v)], s5)
        else None
    | EmptyString => None
    end.
Proof.
  intros Hk Hv. cbn [members]. rewrite skipSpace_blank by done.
  unfold memberText, quoted. cbn [fst snd]. sapp. rewrite !sapp_assoc. sapp.
  cbn [skipSpace]. change (isSpace dq) with false. cbv iota.
  change (Ascii.eqb dq dq) with true. cbv iota.
  rewrite Hk. cbn [mbind option_bind skipSpace].
  change (isSpace ":") with false. cbv iota.
  change (Ascii.eqb ":" ":") with true. cbv iota.
  rewrite Hv. reflexivity.
Qed.

Lemma members_read (ms : list (string * Value)) (tail : string) (n : nat) :
  ms <> [] ->
  Forall (fun kv => scannable kv.1 /\ reads pv sub kv.2) ms ->
  (length ms <= n)%nat ->
  members pv n
    (ws1 +:+ String.concat ("," +:+ ws1) (map (memberText sub) ms)
         +:+ ws0 +:+ "}" +:+ tail)
  = Some (ms, tail).
Proof.
  revert n. induction ms as [|[k v] ms IH]; [done|].
  intros n _ Hall Hn. destruct n as [|n]; [simpl in Hn; lia|].
  apply Forall_cons in Hall as [[Hk Hv] Hall]. cbn [fst snd] in Hk, Hv.
  destruct ms as [|kv' ms].
  - cbn [map String.concat]. rewrite member_step by done.
    rewrite skipSpace_blank by done. reflexivity.
  - cbn [map]. rewrite concat_cons2. rewrite !sapp_assoc.
    rewrite member_step by done. sapp. cbn [skipSpace].
    change (isSpace ",") with false. cbv iota.
    change (Ascii.eqb "," ",") with true. cbv iota.
    change (memberText sub kv' :: map (memberText sub) ms)
      with (map (memberText sub) (kv' :: ms)).
    rewrite IH; [reflexivity|done|done|simpl in *; lia].
Qed.
End MembersRead.

Lemma length_concat_members (sub : Value -> string) (sep : string)
    (ms : list (string * Value)) :
  (length ms <= String.length (String.concat sep (map (memberText sub) ms)))%nat.
Proof.
  induction ms as [|kv ms IH]; [simpl; lia|].
  destruct ms as [|kv' ms].
  - cbn [map String.concat]. unfold memberText, quoted. sapp. simpl. lia.
  - cbn [map]. rewrite concat_cons2. rewrite !slength_app.
    cbn [map] in IH. unfold memberText at 1, quoted. sapp. cbn [String.length length] in *. lia.
Qed.

(** An object is read back when its names are scannable and its values
    are read back one level deeper. *)
Lemma value_object (d level : nat) (ms : list (string * Value)) (rest : string) :
  Forall (fun kv => scannable kv.1 /\ reads (value d) (render (S level)) kv.2) ms ->
  value (S d) (render level (VObject ms) +:+ rest) = Some (VObject ms, rest).
Proof.
  intros Hall. destruct ms as [|kv ms]; [reflexivity|].
  cbn [render].
  change (map (fun kv0 : string * Value => quoted kv0.1 +:+ ": " +:+ render (S level) kv0.2) (kv :: ms))
    with (map (memberText (render (S level))) (kv :: ms)).
  set (body := String.concat ("," +:+ newline (S level))
                 (map (memberText (render (S level))) (kv :: ms))).
  rewrite !sapp_assoc. sapp. cbn [value skipSpace].
  change (isSpace "{") with false. cbv iota.
  change (Ascii.eqb "{" "{") with true. cbv iota.
  rewrite skipSpace_blank by apply blank_newline.
  assert (Hbody : exists b, body +:+ newline level +:+ String "}" rest
                            = String dq b).
  { subst body. destruct ms as [|kv' ms].
    - cbn [map String.concat]. unfold memberText, quoted. sapp. eauto.
    - cbn [map]. rewrite concat_cons2. unfold memberText at 1, quoted. sapp. eauto. }
  destruct Hbody as [b Hb]. rewrite Hb. cbn [skipSpace].
  change (isSpace dq) with false. cbv iota.
  change (Ascii.eqb dq "}") with false. cbv iota. rewrite <- Hb.
  rewrite (members_read (value d) (render (S level)) (newline (S level)) (newline level)
             (blank_newline _) (blank_newline _) (kv :: ms) rest).
  - reflexivity.
  - done.
  - exact Hall.
  - rewrite !slength_app.
    pose proof (length_concat_members (render (S level)) ("," +:+ newline (S level)) (kv :: ms)).
    fold body in H. lia.
Qed.

Lemma reads_null (d level : nat) : reads (value d) (render level) VNull.
Proof.
  intros rest. change (String " " (render level VNull +:+ rest))
    with (" " +:+ ("null" +:+ rest)).
  rewrite value_blank by done. apply value_null.
Qed.

Lemma reads_string (d level : nat) (raw : string) :
  scannable raw -> reads (value d) (render level) (VString raw).
Proof.
  intros H rest. change (String " " (render level (VString raw) +:+ rest))
    with (" " +:+ (quoted raw +:+ rest)).
  rewrite value_blank by done. by apply value_string.
Qed.

Lemma reads_object (d level : nat) (ms : list (string * Value)) :
  Forall (fun kv => scannable kv.1 /\ reads (value d) (render (S level)) kv.2) ms ->
  reads (value (S d)) (render level) (VObject ms).
Proof.
  intros H rest. change (String " " (render level (VObject ms) +:+ rest))
    with (" " +:+ (render level (VObject ms) +:+ rest)).
  rewrite value_blank by done. by apply value_object.
Qed.

(** ** Encoding and decoding records *)

Lemma scannable_plain (raw : string) : sall plain raw = true -> scannable raw.
Proof.
  intros H rest. induction raw as [|c raw IH].
  - rewrite sapp_nil. cbn [scanString]. change (Ascii.eqb dq dq) with true. reflexivity.
  - cbn [sall] in H. apply andb_true_iff in H as [Hc H]. rewrite sapp_cons.
    unfold plain in Hc. apply andb_true_iff in Hc as [Hc H92].
    apply andb_true_iff in Hc as [H32 H34].
    apply Z.leb_le in H32. apply negb_true_iff, Z.eqb_neq in H34, H92.
    rewrite scan_plain by done. rewrite (IH H). reflexivity.
Qed.

Lemma sall_impl (p q : ascii -> bool) (s : string) :
  (forall c, p c = true -> q c = true) -> sall p s = true -> sall q s = true.
Proof.
  intros Hpq. induction s as [|c s IH]; [done|]. cbn [sall].
  intros [Hc Hs]%andb_true_iff. by rewrite (Hpq c Hc), (IH Hs).
Qed.

Lemma digit_plain (c : ascii) : isDigit c = true -> plain c = true.
Proof.
  unfold isDigit, in_range, plain. intros [H0 H1]%andb_true_iff.
  apply Z.leb_le in H0, H1.
  replace (32 <=? byte_val c) with true by (symmetry; apply Z.leb_le; lia).
  replace (byte_val c =? 34) with false by (symmetry; apply Z.eqb_neq; lia).
  replace (byte_val c =? 92) with false by (symmetry; apply Z.eqb_neq; lia).
  reflexivity.
Qed.

Lemma appendInt_plain (w : nat) (x : Z) : sall plain (time.appendInt w x) = true.
Proof. apply (sall_impl isDigit); [apply digit_plain|apply sall_appendInt]. Qed.

Lemma timeText_plain (t : time.Time) : sall plain (time.appendFormatRFC3339 t) = true.
Proof.
  unfold time.appendFormatRFC3339.
  destruct (time.date t) as [[y m] d]. destruct (time.clock t) as [[h mi] s].
  rewrite !sall_app, !appendInt_plain. cbn [sall andb].
  change (plain "-") with true. change (plain "T") with true. change (plain ":") with true.
  cbn [andb].
  apply andb_true_iff. split.
  - unfold time.appendNano. destruct (time.nsec t =? 0); [done|].
    cbn [sall]. change (plain ".") with true. cbn [andb].
    apply (sall_impl isDigit); [apply digit_plain|].
    apply sall_trimZeros, sall_appendInt.
  - unfold time.appendZone. destruct (time.offset t =? 0); [done|].
    cbn [sall]. rewrite !sall_app, !appendInt_plain.
    by destruct (_ <? 0).
Qed.

(** A representable time is encoded as its text, without error. *)
Lemma encodeTime_ok (t : time.Time) :
  representable t = true ->
  encodeTime t = Ok (VString (time.appendFormatRFC3339 t)).
Proof.
  unfold representable. rewrite !andb_true_iff.
  intros [[[[[[Hy0 Hy1] Hn0] Hn1] Hmod] Ho0] Ho1].
  apply Z.leb_le in Hy0, Hy1. apply Z.ltb_lt in Ho0, Ho1.
  unfold encodeTime, time.appendStrictRFC3339.
  replace (time.Year t <? 0) with false by (symmetry; apply Z.ltb_ge; lia).
  replace (9999 <? time.Year t) with false by (symmetry; apply Z.ltb_ge; lia).
  replace (24 <=? Z.abs (Z.quot (time.offset t) 60) / 60) with false
    by (symmetry; apply Z.leb_gt; Z.to_euclidean_division_equations; lia).
  rewrite andb_false_r. reflexivity.
Qed.

Section DecodeLink.
Variable Parse : string -> result time.Time.

Lemma decodeTime_text (t old : time.Time) :
  representable t = true ->
  decodeTime Parse (VString (time.appendFormatRFC3339 t)) old = Ok (time.Round0 t).
Proof.
  intros H. unfold decodeTime, time.parseStrictRFC3339.
  by rewrite (parse_format t H).
Qed.

Lemma decodeString_text (s old : string) :
  utf8.ValidString s = true ->
  decodeString (VString (appendString s)) old = Ok s.
Proof. intros H. unfold decodeString. by rewrite (unquote_appendString s H). Qed.

Lemma encodeLink_ok (l : Link) :
  validLink l = true -> encodeLink l = Ok (VObject (linkMembers l)).
Proof.
  unfold validLink. rewrite !andb_true_iff. intros [[_ Hc] Hu].
  unfold encodeLink. rewrite (encodeTime_ok _ Hc), (encodeTime_ok _ Hu). reflexivity.
Qed.

Lemma decodeField_string (l : Link) (name : string) (f : field) (s : string) :
  unquote name = Some name -> lookupField name = Some f ->
  utf8.ValidString s = true ->
  decodeField Parse l (name, VString (appendString s))
  = match f with
    | fAlias => Ok (mkLink s (URL l) (Description l) (Category l) (CreatedAt l) (UpdatedAt l))
    | fURL => Ok (mkLink (Alias l) s (Description l) (Category l) (CreatedAt l) (UpdatedAt l))
    | fDescription => Ok (mkLink (Alias l) (URL l) s (Category l) (CreatedAt l) (UpdatedAt l))
    | fCategory => Ok (mkLink (Alias l) (URL l) (Description l) s (CreatedAt l) (UpdatedAt l))
    | _ => decodeField Parse l (name, VString (appendString s))
    end.
Proof.
  intros Hn Hf Hs. unfold decodeField. cbn [fst snd]. rewrite Hn. cbn [ofOption rbind].
  rewrite Hf. destruct f; try reflexivity; by rewrite decodeString_text.
Qed.

Lemma decodeField_time (l : Link) (name : string) (f : field) (t : time.Time) :
  unquote name = Some name -> lookupField name = Some f ->
  representable t = true ->
  decodeField Parse l (name, VString (time.appendFormatRFC3339 t))
  = match f with
    | fCreatedAt =>
        Ok (mkLink (Alias l) (URL l) (Description l) (Category l) (time.Round0 t) (UpdatedAt l))
    | fUpdatedAt =>
        Ok (mkLink (Alias l) (URL l) (Description l) (Category l) (CreatedAt l) (time.Round0 t))
    | _ => decodeField Parse l (name, VString (time.appendFormatRFC3339 t))
    end.
Proof.
  intros Hn Hf Ht. unfold decodeField. cbn [fst snd]. rewrite Hn. cbn [ofOption rbind].
  rewrite Hf. destruct f; try reflexivity; by rewrite decodeTime_text.
Qed.

Lemma foldM_app {A B} (f : A -> B -> result A) (l1 l2 : list B) (a : A) :
  foldM f (l1 ++ l2)%list a = rbind (foldM f l1 a) (foldM f l2).
Proof.
  revert a. induction l1 as [|x l1 IH]; intros a; [done|].
  cbn [foldM app]. change ((x :: l1) ++ l2)%list with (x :: (l1 ++ l2))%list.
  cbn [foldM]. destruct (f a x); [apply IH|done].
Qed.

Lemma foldM_cons {A B} (f : A -> B -> result A) (x : B) (l : list B) (a : A) :
  foldM f (x :: l) a = rbind (f a x) (foldM f l).
Proof. reflexivity. Qed.

(** Decoding the members of a valid record gives the record as the file
    keeps it. *)
Lemma decode_linkMembers (l : Link) :
  validLink l = true ->
  foldM (decodeField Parse) (linkMembers l) zeroLink = Ok (wallLink l).
Proof.
  unfold validLink. rewrite !andb_true_iff.
  intros [[[[[Ha Hu] Hd] Hc] Hct] Hut].
  unfold linkMembers.
  destruct (String.eqb_spec (Description l) EmptyString) as [Ed|Ed];
    destruct (String.eqb_spec (Category l) EmptyString) as [Ec|Ec];
    cbn [app];
    repeat (rewrite foldM_cons;
            first [ rewrite (decodeField_string _ "alias" fAlias) by done
                  | rewrite (decodeField_string _ "url" fURL) by done
                  | rewrite (decodeField_string _ "description" fDescription) by done
                  | rewrite (decodeField_string _ "category" fCategory) by done
                  | rewrite (decodeField_time _ "created_at" fCreatedAt) by done
                  | rewrite (decodeField_time _ "updated_at" fUpdatedAt) by done ];
            cbn [rbind]);
    unfold wallLink; cbn; rewrite ?Ed, ?Ec; reflexivity.
Qed.
End DecodeLink.

Lemma encodePtr_ok (kv : string * option Link) :
  validEntry kv = true -> encodePtr kv.2 = Ok (entryValue kv.2).
Proof.
  unfold validEntry. intros [_ H]%andb_true_iff.
  destruct kv.2 as [l|]; [|done]. by apply encodeLink_ok.
Qed.

Lemma mapM_cons {A B} (f : A -> result B) (x : A) (l : list A) :
  mapM f (x :: l) = rbind (f x) (fun y => rmap (cons y) (mapM f l)).
Proof. reflexivity. Qed.

Lemma mapM_entries (l : list (string * option Link)) :
  Forall (fun kv => validEntry kv = true) l ->
  mapM (fun kv => rmap (pair (appendString kv.1)) (encodePtr kv.2)) l
  = Ok (map entryMember l).
Proof.
  induction 1 as [|kv l Hkv Hl IH]; [done|].
  rewrite mapM_cons, (encodePtr_ok kv Hkv). cbn [rmap rbind].
  rewrite IH. reflexivity.
Qed.

Lemma validMapping_Forall (m : gmap string (option Link)) :
  validMapping (mk_map m) = true ->
  Forall (fun kv => validEntry kv = true) (merge_sort keyLe (map_to_list m)).
Proof.
  unfold validMapping. cbn [entries]. rewrite forallb_forall.
  intros H. rewrite merge_sort_Permutation. apply Forall_forall.
  intros kv Hin. apply H. by apply list_elem_of_In.
Qed.

Lemma encodeMap_ok (m : gmap string (option Link)) :
  validMapping (mk_map m) = true ->
  encodeMap (mk_map m)
  = Ok (VObject (map entryMember (merge_sort keyLe (map_to_list m)))).
Proof.
  intros H. unfold encodeMap. by rewrite (mapM_entries _ (validMapping_Forall m H)).
Qed.

Lemma scannable_appendString (s : string) : scannable (appendString s).
Proof. intros rest. apply scan_appendString. Qed.

(** The members of a valid record are read back at any depth. *)
Lemma linkMembers_read (d level : nat) (l : Link) :
  Forall (fun kv => scannable kv.1 /\ reads (value d) (render level) kv.2)
    (linkMembers l).
Proof.
  assert (Hname : forall name, sall plain name = true -> forall s,
            scannable (name, VString (appendString s)).1
            /\ reads (value d) (render level) (name, VString (appendString s)).2).
  { intros name Hn s. split; [by apply scannable_plain|].
    apply reads_string, scannable_appendString. }
  assert (Htime : forall name, sall plain name = true -> forall t,
            scannable (name, VString (time.appendFormatRFC3339 t)).1
            /\ reads (value d) (render level) (name, VString (time.appendFormatRFC3339 t)).2).
  { intros name Hn t. split; [by apply scannable_plain|].
    apply reads_string, scannable_plain, timeText_plain. }
  unfold linkMembers. rewrite !Forall_app. repeat split.
  - repeat constructor; by apply Hname.
  - destruct (String.eqb _ _); repeat constructor; by apply Hname.
  - destruct (String.eqb _ _); repeat constructor; by apply Hname.
  - repeat constructor; by apply Htime.
Qed.

Lemma entryMembers_read (d level : nat) (l : list (string * option Link)) :
  Forall (fun kv => scannable kv.1 /\ reads (value (S d)) (render level) kv.2)
    (map entryMember l).
Proof.
  apply Forall_forall. intros kv [kv0 [-> _]]%list_elem_of_fmap.
  split; [apply scannable_appendString|]. cbn [entryMember snd].
  destruct kv0.2 as [r|]; cbn [entryValue].
  - apply reads_object, linkMembers_read.
  - apply reads_null.
Qed.

Lemma maxNestingDepth_two : exists d, maxNestingDepth = S (S d).
Proof. exists (maxNestingDepth - 2)%nat. reflexivity. Qed.

(** The text written for the entries of a map parses as those entries. *)
Lemma parse_render_entries (l : list (string * option Link)) :
  parse (render 0 (VObject (map entryMember l))) = Some (VObject (map entryMember l)).
Proof.
  unfold parse. destruct maxNestingDepth_two as [d ->].
  rewrite <- (sapp_empty_r (render 0 (VObject (map entryMember l)))).
  rewrite value_object by apply entryMembers_read. reflexivity.
Qed.

Section DecodeMap.
Variable Parse : string -> result time.Time.

Lemma decodeEntry_member (m : gmap string (option Link)) (kv : string * option Link) :
  validEntry kv = true ->
  decodeEntry Parse m (entryMember kv) = Ok (<[kv.1 := wallLink <$> kv.2]> m).
Proof.
  unfold validEntry. intros [Hk Hv]%andb_true_iff.
  unfold decodeEntry, entryMember. cbn [fst snd].
  rewrite (unquote_appendString _ Hk). cbn [ofOption rbind].
  destruct kv.2 as [l|]; cbn [entryValue decodePtr].
  - rewrite (decode_linkMembers Parse l Hv). reflexivity.
  - reflexivity.
Qed.

Lemma foldM_decodeEntry (l : list (string * option Link)) (acc : gmap string (option Link)) :
  Forall (fun kv => validEntry kv = true) l ->
  foldM (decodeEntry Parse) (map entryMember l) acc
  = Ok (foldl (fun m kv => <[kv.1 := wallLink <$> kv.2]> m) acc l).
Proof.
  intros H. revert acc. induction H as [|kv l Hkv Hl IH]; intros acc; [done|].
  cbn [map]. rewrite foldM_cons. rewrite (decodeEntry_member acc kv Hkv).
  cbn [rbind foldl]. apply IH.
Qed.
End DecodeMap.

Lemma foldl_insert (l : list (string * option Link)) (acc : gmap string (option Link)) :
  foldl (fun m kv => <[kv.1 := wallLink <$> kv.2]> m) acc l
  = list_to_map (reverse (prod_map id (fmap (M := option) wallLink) <$> l)) ∪ acc.
Proof.
  revert acc. induction l as [|kv l IH]; intros acc.
  - cbn. by rewrite (left_id_L ∅ (∪)).
  - cbn [foldl]. rewrite IH. rewrite fmap_cons, reverse_cons, list_to_map_app.
    cbn [list_to_map foldr]. rewrite <- (assoc_L (∪)). f_equal.
    rewrite insert_union_singleton_l. destruct kv as [k p]. cbn.
    by rewrite insert_empty.
Qed.

Lemma foldl_insert_entries (m : gmap string (option Link)) (l : list (string * option Link)) :
  l ≡ₚ map_to_list m ->
  foldl (fun m kv => <[kv.1 := wallLink <$> kv.2]> m) ∅ l
  = fmap (M := gmap string) (fmap (M := option) wallLink) m.
Proof.
  intros Hl. rewrite foldl_insert, (right_id_L ∅ (∪)).
  rewrite <- (list_to_map_to_list (fmap (M := gmap string) (fmap (M := option) wallLink) m)).
  apply list_to_map_proper.
  - rewrite reverse_Permutation, <- list_fmap_compose.
    rewrite (list_fmap_ext _ fst l) by (by intros ? []).
    rewrite Hl. apply NoDup_fst_map_to_list.
  - by rewrite reverse_Permutation, Hl, map_to_list_fmap.
Qed.

Lemma sameLink_wall (l : Link) : sameLink (wallLink l) l.
Proof. repeat split. Qed.

Lemma sameMapping_persisted (g : gomap (option Link)) : sameMapping (persisted g) g.
Proof.
  unfold sameMapping. destruct g as [|m]; unfold persisted; unfold entries.
  - split; [done|]. intros k. rewrite lookup_empty. constructor.
  - split; [by rewrite dom_fmap_L|].
    intros k. rewrite lookup_fmap. destruct (m !! k) as [[l|]|]; cbn.
    + do 2 constructor. apply sameLink_wall.
    + do 2 constructor.
    + constructor.
Qed.

Lemma sameTime_Equal (t u : time.Time) :
  sameTime t u -> time.mono t = None -> time.Equal t u = true.
Proof.
  intros (Hs & Hn & _) Hm. unfold time.Equal. rewrite Hm, Hs, Hn.
  by rewrite !Z.eqb_refl.
Qed.

(** Without monotonic readings the file keeps the mapping as it is. *)
Lemma persisted_id (g : gomap (option Link)) :
  (forall k l, entries g !! k = Some (Some l) ->
     time.mono (CreatedAt l) = None /\ time.mono (UpdatedAt l) = None) ->
  persisted g = g.
Proof.
  destruct g as [|m]; [done|]. unfold persisted; unfold entries. intros H. f_equal.
  apply map_eq. intros k. rewrite lookup_fmap.
  destruct (m !! k) as [[l|]|] eqn:Hk; cbn; [|done|done].
  destruct (H k l Hk) as [Hc Hu]. do 2 f_equal.
  destruct l as [a u d c [cs cn co cm] [us un uo um]]. cbn in *. by subst.
Qed.

(** The document [MarshalIndent] writes for a valid mapping is not empty
    and [Unmarshal] reads it as the mapping, timestamps without their
    monotonic readings. *)
Theorem Unmarshal_MarshalIndent (Parse : string -> result time.Time)
    (g : gomap (option Link)) :
  validMapping g = true ->
  exists data, MarshalIndent g = Ok data
    /\ (String.length data =? 0)%nat = false
    /\ Unmarshal Parse data = Ok (persisted g).
Proof.
  intros Hvalid. destruct g as [|m].
  - exists "null". repeat split; reflexivity.
  - unfold MarshalIndent. rewrite (encodeMap_ok m Hvalid). cbn [rmap].
    eexists. split; [reflexivity|]. split.
    + by destruct (map entryMember _).
    + unfold Unmarshal. rewrite parse_render_entries. cbn [decodeMap].
      rewrite (foldM_decodeEntry Parse _ ∅ (validMapping_Forall m Hvalid)).
      cbn [rmap persisted]. do 2 f_equal.
      apply foldl_insert_entries, merge_sort_Permutation.
Qed.

Lemma saveWithoutLock_healthy (w : World) (data : string) :
  MarshalIndent (links (store w)) = Ok data ->
  saveWithoutLock w
  = (Returns (os.WriteFile (disk w) (filePath (store w)) data).1,
     mkWorld (store w) (os.WriteFile (disk w) (filePath (store w)) data).2).
Proof.
  intros H. run. rewrite H. by destruct (os.WriteFile _ _ _).
Qed.

(** A persist step that returns no error has written the document of
    the mapping to the file, in one call of [WriteFile]. *)
Lemma saveWithoutLock_success (w w' : World) :
  saveWithoutLock w = (Returns None, w') ->
  store w' = store w
  /\ os.writes (disk w') = S (os.writes (disk w))
  /\ exists data, MarshalIndent (links (store w)) = Ok data
       /\ os.files (disk w') !! filePath (store w) = Some data.
Proof.
  run. destruct (MarshalIndent (links (store w))) as [data|e]; [|discriminate].
  unfold os.WriteFile. destruct (os.fault (disk w)); intros [= <-]; cbn;
    (split; [done|]); (split; [done|]); exists data; by rewrite lookup_insert_eq.
Qed.

Lemma load_file (Parse : string -> result time.Time) (w : World) (data : string)
    (g : gomap (option Link)) :
  os.ReadFile (disk w) (filePath (store w)) = Ok data ->
  (String.length data =? 0)%nat = false ->
  Unmarshal Parse data = Ok g ->
  load Parse w = (Returns None, withLinks w g).
Proof. intros Hr Hl Hu. run. rewrite Hr, Hl, Hu. reflexivity. Qed.


(** ** The methods of the store *)

Lemma exists_true g k : exists_ g k = true <-> is_Some (entries g !! k).
Proof. unfold exists_. apply bool_decide_eq_true. Qed.

Lemma exists_false g k : exists_ g k = false <-> entries g !! k = None.
Proof.
  unfold exists_. rewrite bool_decide_eq_false. rewrite <- eq_None_not_Some. done.
Qed.

Lemma exists_nil k : exists_ (@nil_map (option Link)) k = false.
Proof. apply exists_false. reflexivity. Qed.

Lemma saveWithoutLock_returns (w : World) :
  exists err d, saveWithoutLock w = (Returns err, mkWorld (store w) d).
Proof.
  run. destruct (json.MarshalIndent (links (store w))) as [data|e].
  - destruct (os.WriteFile (disk w) (filePath (store w)) data) as [err d]. eauto.
  - destruct w. eauto.
Qed.

Lemma Create_absent (w : World) (l : Link) (m : gmap string (option Link)) :
  links (store w) = mk_map m -> m !! Alias l = None ->
  Create (Some l) w = saveWithoutLock (withLinks w (mk_map (<[Alias l := Some l]> m))).
Proof.
  intros Hm Hk. unfold Create, assign.
  unfold mbind, IO_bind, deref, mret, IO_ret, getLinks, setLinks. simpl.
  replace (exists_ (links (store w)) (Alias l)) with false
    by (symmetry; apply exists_false; rewrite Hm; exact Hk).
  simpl. rewrite Hm. reflexivity.
Qed.

Lemma Create_present (w : World) (l : Link) :
  exists_ (links (store w)) (Alias l) = true ->
  Create (Some l) w = (Returns (Some AlreadyExists), w).
Proof. intros Hex. run. rewrite Hex. reflexivity. Qed.

Lemma Create_nil_map (w : World) (l : Link) :
  links (store w) = nil_map ->
  Create (Some l) w = (Panics "assignment to entry in nil map", w).
Proof.
  intros Hm. unfold Create, assign.
  unfold mbind, IO_bind, deref, mret, IO_ret, getLinks, setLinks, panic. simpl.
  rewrite Hm. rewrite exists_nil. simpl. rewrite Hm. reflexivity.
Qed.

Lemma Update_present (w : World) (l : Link) (m : gmap string (option Link)) :
  links (store w) = mk_map m -> is_Some (m !! Alias l) ->
  Update (Some l) w = saveWithoutLock (withLinks w (mk_map (<[Alias l := Some l]> m))).
Proof.
  intros Hm Hk. unfold Update, assign.
  unfold mbind, IO_bind, deref, mret, IO_ret, getLinks, setLinks. simpl.
  replace (exists_ (links (store w)) (Alias l)) with true
    by (symmetry; apply exists_true; rewrite Hm; exact Hk).
  simpl. rewrite Hm. reflexivity.
Qed.

Lemma Update_absent (w : World) (l : Link) :
  exists_ (links (store w)) (Alias l) = false ->
  Update (Some l) w = (Returns (Some NotFound), w).
Proof. intros Hex. run. rewrite Hex. reflexivity. Qed.

Lemma Delete_present (w : World) (alias : string) (m : gmap string (option Link)) :
  links (store w) = mk_map m -> is_Some (m !! alias) ->
  Delete alias w = saveWithoutLock (withLinks w (mk_map (delete alias m))).
Proof.
  intros Hm Hk. unfold Delete, remove.
  unfold mbind, IO_bind, mret, IO_ret, getLinks, setLinks. simpl.
  replace (exists_ (links (store w)) alias) with true
    by (symmetry; apply exists_true; rewrite Hm; exact Hk).
  simpl. rewrite Hm. reflexivity.
Qed.

Lemma Delete_absent (w : World) (alias : string) :
  exists_ (links (store w)) alias = false ->
  Delete alias w = (Returns (Some NotFound), w).
Proof. intros Hex. run. rewrite Hex. reflexivity. Qed.

Lemma present_not_nil (g : gomap (option Link)) (k : string) :
  exists_ g k = true -> exists m, g = mk_map m /\ is_Some (m !! k).
Proof.
  destruct g as [|m]; [rewrite exists_nil; discriminate|].
  intros H. exists m. split; [done|]. by apply exists_true in H.
Qed.

(** * The claims *)

(** C1 — round trip: for every mapping of well-formed aliases to valid
    records, the empty mapping and the nil map included, the persist
    step writes a document which the load step, whatever the store held
    before, reads as a mapping with the same aliases and, at each alias,
    the same field values (the timestamps without their monotonic clock
    readings, which the file does not keep). *)
Theorem persist_then_load_round_trip (Parse : string -> result time.Time) (w : World) :
  validMapping (links (store w)) = true ->
  os.fault (disk w) = os.Healthy ->
  exists data d',
    MarshalIndent (links (store w)) = Ok data
    /\ saveWithoutLock w = (Returns None, mkWorld (store w) d')
    /\ os.files d' !! filePath (store w) = Some data
    /\ (forall old,
          load Parse (mkWorld (mkStorage (filePath (store w)) old) d')
          = (Returns None,
             mkWorld (mkStorage (filePath (store w)) (persisted (links (store w)))) d'))
    /\ sameMapping (persisted (links (store w))) (links (store w)).
Proof.
  intros Hvalid Hfault.
  destruct (Unmarshal_MarshalIndent Parse _ Hvalid) as (data & Hm & Hlen & Hu).
  exists data. eexists. split; [exact Hm|].
  rewrite (saveWithoutLock_healthy w data Hm).
  unfold os.WriteFile. rewrite Hfault. cbn [fst snd].
  split; [reflexivity|]. cbn [os.files].
  split; [by rewrite lookup_insert_eq|].
  split; [|apply sameMapping_persisted].
  intros old.
  rewrite (load_file Parse _ data (persisted (links (store w)))); [reflexivity| |done|done].
  unfold os.ReadFile. cbn. by rewrite lookup_insert_eq.
Qed.

Lemma persist_then_load_round_trip_witness :
  exists data d',
    MarshalIndent (links (store twoLinks)) = Ok data
    /\ saveWithoutLock twoLinks = (Returns None, mkWorld (store twoLinks) d')
    /\ os.files d' !! filePath (store twoLinks) = Some data
    /\ (forall old,
          load rejects (mkWorld (mkStorage (filePath (store twoLinks)) old) d')
          = (Returns None,
             mkWorld (mkStorage (filePath (store twoLinks))
                        (persisted (links (store twoLinks)))) d'))
    /\ sameMapping (persisted (links (store twoLinks))) (links (store twoLinks)).
Proof.
  apply (persist_then_load_round_trip rejects twoLinks).
  - vm_compute. reflexivity.
  - reflexivity.
Defined.


(** C2 — load is atomic on a parse failure: when the file can be read,
    is not empty and does not parse, [load] returns the parse error and
    leaves the store and the disk as they were. *)
Theorem load_parse_failure_keeps_state Parse (w : World) (data : string) (err : error) :
  os.ReadFile (disk w) (filePath (store w)) = Ok data ->
  data <> EmptyString ->
  json.Unmarshal Parse data = Err err ->
  load Parse w = (Returns (Some err), w)
  /\ links (store (load Parse w).2) = links (store w).
Proof.
  intros Hread Hne Hparse.
  assert (H : load Parse w = (Returns (Some err), w)).
  { run. rewrite Hread. destruct data as [|c data]; [done|]. simpl.
    rewrite Hparse. reflexivity. }
  rewrite H. done.
Qed.

Lemma load_parse_failure_keeps_state_witness :
  load rejects (mkWorld (store ghWorld) (healthy {["/links.json" := "{"]}))
  = (Returns (Some SyntaxError), mkWorld (store ghWorld) (healthy {["/links.json" := "{"]})).
Proof.
  apply (load_parse_failure_keeps_state rejects
           (mkWorld (store ghWorld) (healthy {["/links.json" := "{"]})) "{" SyntaxError).
  - reflexivity.
  - discriminate.
  - vm_compute. reflexivity.
Defined.

(** C3 — an empty file loads as the empty mapping: whatever the mapping
    held, [load] on a zero-length file returns no error and leaves the
    allocated, empty map. *)
Theorem load_empty_file Parse (w : World) :
  os.ReadFile (disk w) (filePath (store w)) = Ok EmptyString ->
  load Parse w
  = (Returns None, mkWorld (mkStorage (filePath (store w)) (mk_map ∅)) (disk w))
  /\ entries (links (store (load Parse w).2)) = ∅.
Proof.
  intros Hread.
  assert (H : load Parse w
              = (Returns None, mkWorld (mkStorage (filePath (store w)) (mk_map ∅)) (disk w))).
  { run. rewrite Hread. reflexivity. }
  rewrite H. done.
Qed.

Lemma load_empty_file_witness :
  entries (links (store (load rejects
     (mkWorld (store ghWorld) (healthy {["/links.json" := EmptyString]}))).2)) = ∅.
Proof.
  apply (load_empty_file rejects
           (mkWorld (store ghWorld) (healthy {["/links.json" := EmptyString]}))).
  reflexivity.
Defined.

(** C4 — Create is refused for an alias that is already a key: it
    returns the already-exists error, and neither the mapping nor the
    disk (so no call of WriteFile) changes. *)
Theorem Create_existing_alias (w : World) (l : Link) :
  exists_ (links (store w)) (Alias l) = true ->
  Create (Some l) w = (Returns (Some AlreadyExists), w)
  /\ links (store (Create (Some l) w).2) = links (store w)
  /\ disk (Create (Some l) w).2 = disk w
  /\ os.writes (disk (Create (Some l) w).2) = os.writes (disk w).
Proof.
  intros Hex.
  rewrite (Create_present w l Hex). done.
Qed.

Lemma Create_existing_alias_witness :
  Create (Some gh') ghWorld = (Returns (Some AlreadyExists), ghWorld).
Proof. apply (Create_existing_alias ghWorld gh'). vm_compute. reflexivity. Defined.

(** C5 — Get, Update and Delete on an alias that is no key each return
    the not-found error and leave the mapping and the disk as they
    were. *)
Theorem absent_alias_not_found (w : World) (alias : string) (l : Link) :
  exists_ (links (store w)) alias = false ->
  Alias l = alias ->
  Get alias w = (Returns (None, Some NotFound), w)
  /\ Update (Some l) w = (Returns (Some NotFound), w)
  /\ Delete alias w = (Returns (Some NotFound), w).
Proof.
  intros Hex <-. repeat split.
  - run. apply exists_false in Hex. rewrite Hex. reflexivity.
  - run. rewrite Hex. reflexivity.
  - run. rewrite Hex. reflexivity.
Qed.

Lemma absent_alias_not_found_witness :
  Get "gh" emptyWorld = (Returns (None, Some NotFound), emptyWorld)
  /\ Update (Some gh) emptyWorld = (Returns (Some NotFound), emptyWorld)
  /\ Delete "gh" emptyWorld = (Returns (Some NotFound), emptyWorld).
Proof. apply (absent_alias_not_found emptyWorld "gh" gh); reflexivity. Defined.

(** C7 — no rollback when Create cannot persist: for an absent alias,
    once the entry is assigned in memory, an error of the persist step is
    what Create returns, and the entry is still in the mapping. *)
Theorem Create_persist_failure_keeps_insert (w w1 w2 : World) (l : Link) (err : error) :
  exists_ (links (store w)) (Alias l) = false ->
  assign (Alias l) (Some l) w = (Returns tt, w1) ->
  saveWithoutLock w1 = (Returns (Some err), w2) ->
  Create (Some l) w = (Returns (Some err), w2)
  /\ entries (links (store w2)) !! Alias l = Some (Some l).
Proof.
  intros Hex Hassign Hsave. split.
  - unfold Create. unfold mbind at 1 2 3, IO_bind, deref, mret, IO_ret, getLinks.
    rewrite Hex. rewrite Hassign. exact Hsave.
  - revert Hassign Hsave. run.
    destruct (links (store w)) as [|m] eqn:Hg; [discriminate|].
    intros [= <-]. simpl.
    destruct (json.MarshalIndent (mk_map (<[Alias l:=Some l]> m))).
    + destruct (os.WriteFile _ _ _). intros [= _ <-]. simpl. apply lookup_insert_eq.
    + intros [= _ <-]. simpl. apply lookup_insert_eq.
Qed.

Lemma Create_persist_failure_keeps_insert_witness :
  Create (Some gh) readOnly
  = (Returns (Some (PathError "open" "/links.json")),
     mkWorld (mkStorage "/links.json" (mk_map (<["gh" := Some gh]> ∅)))
       (os.mkDisk ∅ os.OpenFails 1))
  /\ entries (links (store
       (mkWorld (mkStorage "/links.json" (mk_map (<["gh" := Some gh]> ∅)))
          (os.mkDisk ∅ os.OpenFails 1)))) !! "gh" = Some (Some gh).
Proof.
  apply (Create_persist_failure_keeps_insert readOnly
           (mkWorld (mkStorage "/links.json" (mk_map (<["gh" := Some gh]> ∅)))
              (os.mkDisk ∅ os.OpenFails 0))).
  - reflexivity.
  - reflexivity.
  - vm_compute. reflexivity.
Defined.

(** C8 — Update overwrites the record wholesale and stamps nothing: for
    a present alias Update returns, and the mapping then holds at the
    alias exactly the record passed in, its [UpdatedAt] included; the only
    place that sets the two timestamps is [NewLink], which gives both the
    construction time. *)
Theorem Update_overwrites_wholesale (w : World) (l : Link) :
  exists_ (links (store w)) (Alias l) = true ->
  (exists err w', Update (Some l) w = (Returns err, w')
     /\ entries (links (store w')) !! Alias l = Some (Some l)
     /\ (forall stored, entries (links (store w')) !! Alias l = Some (Some stored) ->
           UpdatedAt stored = UpdatedAt l /\ CreatedAt stored = CreatedAt l))
  /\ (forall now alias url description category,
        CreatedAt (NewLink now alias url description category) = now
        /\ UpdatedAt (NewLink now alias url description category) = now).
Proof.
  intros Hex. split; [|done].
  destruct (present_not_nil _ _ Hex) as (m & Hm & Hk).
  rewrite (Update_present w l m Hm Hk).
  destruct (saveWithoutLock_returns (withLinks w (mk_map (<[Alias l := Some l]> m))))
    as (err & d & ->).
  exists err. eexists. split; [reflexivity|]. simpl. rewrite lookup_insert_eq.
  split; [done|]. by intros stored [= ->].
Qed.

Lemma Update_overwrites_wholesale_witness :
  exists err w', Update (Some gh') ghWorld = (Returns err, w')
     /\ entries (links (store w')) !! "gh" = Some (Some gh')
     /\ (forall stored, entries (links (store w')) !! "gh" = Some (Some stored) ->
           UpdatedAt stored = UpdatedAt gh' /\ CreatedAt stored = CreatedAt gh').
Proof.
  apply (Update_overwrites_wholesale ghWorld gh'). vm_compute. reflexivity.
Defined.

Lemma keyConsistent_insert (m : gmap string (option Link)) (l : Link) :
  keyConsistent (mk_map m) -> keyConsistent (mk_map (<[Alias l := Some l]> m)).
Proof.
  intros Hinv k p. simpl. rewrite lookup_insert. case_decide as Hk.
  - intros [= <-]. eauto.
  - apply Hinv.
Qed.

Lemma keyConsistent_delete (m : gmap string (option Link)) (alias : string) :
  keyConsistent (mk_map m) -> keyConsistent (mk_map (delete alias m)).
Proof.
  intros Hinv k p. simpl. rewrite lookup_delete. case_decide; [done|]. apply Hinv.
Qed.

Lemma keyConsistent_after_save (w : World) (g : gomap (option Link)) :
  keyConsistent g -> keyConsistent (links (store (saveWithoutLock (withLinks w g)).2)).
Proof.
  intros Hg. destruct (saveWithoutLock_returns (withLinks w g)) as (err & d & ->). exact Hg.
Qed.

(** C9 — key–record consistency is an invariant of the mutating
    methods: from a state in which every key leads to a record carrying
    that key as alias, Create, Update and Delete, whatever their argument
    and however they end, lead to such a state again. *)
Theorem keyConsistent_preserved (w : World) :
  keyConsistent (links (store w)) ->
  (forall l, keyConsistent (links (store (Create l w).2)))
  /\ (forall l, keyConsistent (links (store (Update l w).2)))
  /\ (forall alias, keyConsistent (links (store (Delete alias w).2))).
Proof.
  intros Hinv. repeat split.
  - intros [l|]; [|exact Hinv].
    destruct (exists_ (links (store w)) (Alias l)) eqn:Hex.
    + rewrite (Create_present w l Hex). exact Hinv.
    + destruct (links (store w)) as [|m] eqn:Hm.
      * rewrite (Create_nil_map w l Hm). simpl. by rewrite Hm.
      * apply exists_false in Hex. simpl in Hex.
        rewrite (Create_absent w l m Hm Hex).
        apply keyConsistent_after_save, keyConsistent_insert, Hinv.
  - intros [l|]; [|exact Hinv].
    destruct (exists_ (links (store w)) (Alias l)) eqn:Hex.
    + destruct (present_not_nil _ _ Hex) as (m & Hm & Hk).
      rewrite (Update_present w l m Hm Hk).
      apply keyConsistent_after_save, keyConsistent_insert. by rewrite <- Hm.
    + rewrite (Update_absent w l Hex). exact Hinv.
  - intros alias.
    destruct (exists_ (links (store w)) alias) eqn:Hex.
    + destruct (present_not_nil _ _ Hex) as (m & Hm & Hk).
      rewrite (Delete_present w alias m Hm Hk).
      apply keyConsistent_after_save, keyConsistent_delete. by rewrite <- Hm.
    + rewrite (Delete_absent w alias Hex). exact Hinv.
Qed.

Lemma keyConsistent_gh : keyConsistent (links (store ghWorld)).
Proof.
  intros k p. simpl. rewrite lookup_singleton. case_decide as Hk; [|done].
  intros [= <-]. exists gh. by rewrite <- Hk.
Defined.

Lemma keyConsistent_preserved_witness :
  (forall l, keyConsistent (links (store (Create l ghWorld).2)))
  /\ (forall l, keyConsistent (links (store (Update l ghWorld).2)))
  /\ (forall alias, keyConsistent (links (store (Delete alias ghWorld).2))).
Proof. apply (keyConsistent_preserved ghWorld). exact keyConsistent_gh. Defined.

Lemma List_loop (visit : list (string * option Link)) (acc : list (option Link)) :
  foldl (fun result kv => (result ++ [kv.2])%list) acc visit = (acc ++ visit.*2)%list.
Proof.
  revert acc. induction visit as [|kv visit IH]; intros acc; simpl.
  - by rewrite app_nil_r.
  - rewrite IH. by rewrite <- app_assoc.
Qed.

(** C10 — the readers are pure: Get, found or not, and List leave the
    store and the disk as they were (no call of WriteFile); the sequence
    List returns is built anew and holds one entry for each alias of the
    mapping, so its length is the number of aliases. *)
Theorem readers_are_pure (w : World) (alias : string) (visit : list (string * option Link)) :
  rangeOrder (links (store w)) visit ->
  (exists r, Get alias w = (Returns r, w)
     /\ (r.2 = None <-> exists_ (links (store w)) alias = true)
     /\ (r.2 = Some NotFound <-> exists_ (links (store w)) alias = false))
  /\ (exists result, List visit w = (Returns result, w)
        /\ length result = size (entries (links (store w)))
        /\ result ≡ₚ (map_to_list (entries (links (store w)))).*2).
Proof.
  intros Hvisit. split.
  - run. destruct (entries (links (store w)) !! alias) as [l|] eqn:Hl.
    + eexists. split; [reflexivity|]. simpl.
      assert (exists_ (links (store w)) alias = true) as -> by (apply exists_true; eauto).
      split; split; done.
    + eexists. split; [reflexivity|]. simpl.
      assert (exists_ (links (store w)) alias = false) as -> by (by apply exists_false).
      split; split; done.
  - run. exists (visit.*2). rewrite List_loop. simpl. split; [done|].
    unfold rangeOrder in Hvisit. split.
    + rewrite length_fmap, Hvisit. apply length_map_to_list.
    + by rewrite Hvisit.
Qed.

Lemma readers_are_pure_witness :
  (exists r, Get "gh" ghWorld = (Returns r, ghWorld)
     /\ (r.2 = None <-> exists_ (links (store ghWorld)) "gh" = true)
     /\ (r.2 = Some NotFound <-> exists_ (links (store ghWorld)) "gh" = false))
  /\ (exists result, List [("gh", Some gh)] ghWorld = (Returns result, ghWorld)
        /\ length result = size (entries (links (store ghWorld)))
        /\ result ≡ₚ (map_to_list (entries (links (store ghWorld)))).*2).
Proof.
  apply (readers_are_pure ghWorld "gh" [("gh", Some gh)]).
  unfold rangeOrder. simpl. rewrite map_to_list_singleton. reflexivity.
Defined.

(** Each mutating method that returns no error has run the persist step
    on the disk it started from, and returns what that step returns. *)
Lemma mutation_runs_save (w w' : World) :
  (exists l, Create l w = (Returns None, w'))
  \/ (exists l, Update l w = (Returns None, w'))
  \/ (exists alias, Delete alias w = (Returns None, w')) ->
  exists g, saveWithoutLock (withLinks w g) = (Returns None, w').
Proof.
  intros [[l H]|[[l H]|[alias H]]].
  - destruct l as [l|]; [|discriminate].
    destruct (exists_ (links (store w)) (Alias l)) eqn:Hex.
    + rewrite (Create_present w l Hex) in H. discriminate.
    + destruct (links (store w)) as [|m] eqn:Hm.
      * rewrite (Create_nil_map w l Hm) in H. discriminate.
      * apply exists_false in Hex. simpl in Hex.
        rewrite (Create_absent w l m Hm Hex) in H. eauto.
  - destruct l as [l|]; [|discriminate].
    destruct (exists_ (links (store w)) (Alias l)) eqn:Hex.
    + destruct (present_not_nil _ _ Hex) as (m & Hm & Hk).
      rewrite (Update_present w l m Hm Hk) in H. eauto.
    + rewrite (Update_absent w l Hex) in H. discriminate.
  - destruct (exists_ (links (store w)) alias) eqn:Hex.
    + destruct (present_not_nil _ _ Hex) as (m & Hm & Hk).
      rewrite (Delete_present w alias m Hm Hk) in H. eauto.
    + rewrite (Delete_absent w alias Hex) in H. discriminate.
Qed.




(** * Further properties of the store *)

Lemma Get_at (w : World) (alias : string) :
  Get alias w
  = (Returns match entries (links (store w)) !! alias with
             | None => (None, Some NotFound)
             | Some l => (l, None)
             end, w).
Proof. run. by destruct (entries (links (store w)) !! alias). Qed.

Lemma withLinks_links (w : World) (g : gomap (option Link)) :
  links (store (withLinks w g)) = g.
Proof. reflexivity. Qed.

(** X1: a [Create] that returns no error has put the record under its
    alias, where [Get] finds it; the answer of [Get] for every other
    alias is what it was, and the map has one entry more. *)
Theorem Create_then_Get (w w' : World) (l : Link) :
  Create (Some l) w = (Returns None, w') ->
  Get (Alias l) w' = (Returns (Some l, None), w')
  /\ (forall alias, alias <> Alias l -> (Get alias w').1 = (Get alias w).1)
  /\ size (entries (links (store w'))) = S (size (entries (links (store w)))).
Proof.
  intros H. destruct (exists_ (links (store w)) (Alias l)) eqn:Hex.
  { rewrite (Create_present w l Hex) in H. discriminate. }
  destruct (links (store w)) as [|m] eqn:Hg.
  { rewrite (Create_nil_map w l Hg) in H. discriminate. }
  apply exists_false in Hex. cbn [entries] in Hex.
  rewrite (Create_absent w l m Hg Hex) in H.
  apply saveWithoutLock_success in H as (Hst & _).
  split; [|split].
  - rewrite Get_at, Hst, withLinks_links. cbn [entries]. by rewrite lookup_insert_eq.
  - intros alias Hne. rewrite !Get_at, Hst, withLinks_links, Hg. cbn [entries fst].
    by rewrite lookup_insert_ne by (symmetry; exact Hne).
  - rewrite Hst, withLinks_links. cbn [entries]. by rewrite map_size_insert_None.
Qed.

Lemma Create_then_Get_witness :
  exists w', Create (Some gh) emptyWorld = (Returns None, w')
    /\ Get (Alias gh) w' = (Returns (Some gh, None), w').
Proof.
  eexists. split; [vm_compute; reflexivity|].
  apply (Create_then_Get emptyWorld _ gh). vm_compute. reflexivity.
Defined.

(** X2: after a [Delete] that returns no error [Get] reports the alias
    as not found; the answer of [Get] for every other alias is what it
    was, and the map has one entry less. *)
Theorem Delete_then_Get (w w' : World) (alias : string) :
  Delete alias w = (Returns None, w') ->
  Get alias w' = (Returns (None, Some NotFound), w')
  /\ (forall other, other <> alias -> (Get other w').1 = (Get other w).1)
  /\ S (size (entries (links (store w')))) = size (entries (links (store w))).
Proof.
  intros H. destruct (exists_ (links (store w)) alias) eqn:Hex.
  2: { rewrite (Delete_absent w alias Hex) in H. discriminate. }
  destruct (present_not_nil _ _ Hex) as (m & Hg & Hin).
  rewrite (Delete_present w alias m Hg Hin) in H.
  apply saveWithoutLock_success in H as (Hst & _).
  split; [|split].
  - rewrite Get_at, Hst, withLinks_links. cbn [entries]. by rewrite lookup_delete_eq.
  - intros other Hne. rewrite !Get_at, Hst, withLinks_links, Hg. cbn [entries fst].
    by rewrite lookup_delete_ne by (symmetry; exact Hne).
  - rewrite Hst, withLinks_links, Hg. cbn [entries].
    rewrite map_size_delete_Some by done.
    assert (size m <> 0%nat); [|lia]. apply map_size_ne_0_lookup. by exists alias.
Qed.

Lemma Delete_then_Get_witness :
  exists w', Delete "gh" ghWorld = (Returns None, w')
    /\ Get "gh" w' = (Returns (None, Some NotFound), w').
Proof.
  eexists. split; [vm_compute; reflexivity|].
  apply (Delete_then_Get ghWorld _ "gh"). vm_compute. reflexivity.
Defined.

(** X3: [Update] of a record returns, with or without an error, and
    the aliases of the map after it are the aliases before it: it
    neither adds an alias nor removes one. *)
Theorem Update_keeps_aliases (w : World) (l : Link) :
  exists err w', Update (Some l) w = (Returns err, w')
    /\ dom (entries (links (store w'))) = dom (entries (links (store w))).
Proof.
  destruct (exists_ (links (store w)) (Alias l)) eqn:Hex.
  2: { rewrite (Update_absent w l Hex). by eexists _, _. }
  destruct (present_not_nil _ _ Hex) as (m & Hg & Hin).
  rewrite (Update_present w l m Hg Hin).
  destruct (saveWithoutLock_returns (withLinks w (mk_map (<[Alias l := Some l]> m))))
    as (err & d & ->).
  eexists _, _. split; [done|]. rewrite Hg. cbn [store links entries withLinks].
  rewrite dom_insert_L. apply subseteq_union_1_L.
  by apply singleton_subseteq_l, elem_of_dom.
Qed.

Lemma mapM_Err {A B} (f : A -> result B) (l : list A) (x : A) :
  x ∈ l -> (exists e, f x = Err e) ->
  exists y e, y ∈ l /\ f y = Err e /\ mapM f l = Err e.
Proof.
  induction l as [|a l IH]; [by intros ?%elem_of_nil|].
  intros Hin Hx. rewrite mapM_cons. destruct (f a) as [b|e] eqn:Hfa.
  - apply elem_of_cons in Hin as [->|Hin].
    { destruct Hx as [e He]. congruence. }
    destruct (IH Hin Hx) as (y & e & Hy & Hfy & ->).
    exists y, e. split; [apply elem_of_cons; by right|]. done.
  - exists a, e. split; [apply elem_of_cons; by left|]. done.
Qed.

Lemma encodeLink_Err (l : Link) (e : error) :
  encodeLink l = Err e -> exists msg, e = MarshalerError msg.
Proof.
  unfold encodeLink, encodeTime, appendStrictRFC3339.
  repeat match goal with
         | |- context [if ?c then _ else _] => destruct c
         end; cbn; intros; simplify_eq; by eexists.
Qed.

Lemma encodeLink_yearOutOfRange (l : Link) :
  yearOutOfRange (CreatedAt l) \/ yearOutOfRange (UpdatedAt l) ->
  exists e, encodeLink l = Err e.
Proof.
  unfold yearOutOfRange, encodeLink, encodeTime, appendStrictRFC3339. intros H.
  destruct ((Year (CreatedAt l) <? 0) || (9999 <? Year (CreatedAt l))) eqn:Hc;
    [by eexists|].
  destruct ((Year (UpdatedAt l) <? 0) || (9999 <? Year (UpdatedAt l))) eqn:Hu.
  - destruct (negb _ && _); by eexists.
  - apply orb_false_iff in Hc as [?%Z.ltb_ge ?%Z.ltb_ge].
    apply orb_false_iff in Hu as [?%Z.ltb_ge ?%Z.ltb_ge]. lia.
Qed.

(** X4: a map that holds one record with a timestamp whose year is
    outside 0..9999 cannot be written: [Save] returns the error of the
    encoder and calls [WriteFile] not at all, so the file keeps the
    text it had and the store stays as it is. *)
Theorem Save_year_out_of_range (w : World) (k : string) (l : Link) :
  entries (links (store w)) !! k = Some (Some l) ->
  yearOutOfRange (CreatedAt l) \/ yearOutOfRange (UpdatedAt l) ->
  exists msg, Save w = (Returns (Some (MarshalerError msg)), w).
Proof.
  intros Hk Hy. unfold Save. run.
  destruct (links (store w)) as [|m]; [cbn [entries] in Hk; by rewrite lookup_empty in Hk|].
  cbn [entries] in Hk. unfold MarshalIndent, encodeMap.
  destruct (mapM_Err (fun kv => rmap (pair (appendString kv.1)) (encodePtr kv.2))
              (merge_sort keyLe (map_to_list m)) (k, Some l)) as (y & e & _ & Hy' & ->).
  { rewrite merge_sort_Permutation. by apply elem_of_map_to_list. }
  { cbn. destruct (encodeLink_yearOutOfRange l Hy) as [e ->]. by eexists. }
  destruct y as [k' [l'|]]; cbn in Hy'; [|discriminate].
  destruct (encodeLink l') as [v|e'] eqn:He'; cbn in Hy'; [discriminate|].
  injection Hy' as <-. destruct (encodeLink_Err _ _ He') as [msg ->].
  exists msg. reflexivity.
Qed.

Lemma Save_year_out_of_range_witness :
  let w := withLinks ghWorld (mk_map {["late" := Some late]}) in
  exists msg, Save w = (Returns (Some (MarshalerError msg)), w).
Proof.
  intros w. apply (Save_year_out_of_range w "late" late).
  - vm_compute. reflexivity.
  - left. right. vm_compute. reflexivity.
Defined.

Lemma load_cases (Parse : string -> result Time) (w : World) :
  (exists e, load Parse w = (Returns (Some e), w))
  \/ (exists g, load Parse w = (Returns None, withLinks w g)).
Proof.
  run. destruct (os.ReadFile (disk w) (filePath (store w))) as [data|e].
  - destruct (String.length data =? 0)%nat; [right; by eexists|].
    destruct (Unmarshal Parse data) as [g|e]; [right|left]; by eexists.
  - left. by eexists.
Qed.

(** X5: [load] always returns; it never writes to the disk and never
    changes the path of the store; and when it returns an error the
    state after it is the state before it, whatever the error was
    (the file could not be read, or its text could not be parsed). *)
Theorem load_frame (Parse : string -> result Time) (w : World) :
  exists err w', load Parse w = (Returns err, w')
    /\ disk w' = disk w
    /\ filePath (store w') = filePath (store w)
    /\ (err <> None -> w' = w).
Proof.
  destruct (load_cases Parse w) as [[e ->]|[g ->]]; eexists _, _; (split; [done|]).
  - by repeat split.
  - repeat split. done.
Qed.

(** X6: loading twice is loading once: a second [load] right after a
    first returns what the first returned and leaves the state the
    first left. *)
Theorem load_idempotent (Parse : string -> result Time) (w w' : World) (r : outcome (option error)) :
  load Parse w = (r, w') -> load Parse w' = (r, w').
Proof.
  run. destruct (os.ReadFile (disk w) (filePath (store w))) as [data|e] eqn:Hr.
  - destruct (String.length data =? 0)%nat eqn:Hlen.
    + intros [= <- <-]. cbn. by rewrite Hr, Hlen.
    + destruct (Unmarshal Parse data) as [g|e] eqn:Hu.
      * intros [= <- <-]. cbn. by rewrite Hr, Hlen, Hu.
      * intros [= <- <-]. by rewrite Hr, Hlen, Hu.
  - intros [= <- <-]. by rewrite Hr.
Qed.

Lemma load_idempotent_witness :
  let w := mkWorld (store ghWorld) (healthy {["/links.json" := "{}"]}) in
  load rejects (withLinks w (mk_map ∅)) = (Returns None, withLinks w (mk_map ∅)).
Proof.
  intros w. apply (load_idempotent rejects w). vm_compute. reflexivity.
Defined.

Lemma Unmarshal_null (Parse : string -> result Time) (pre post : string) :
  blank pre -> blank post -> Unmarshal Parse (pre +:+ "null" +:+ post) = Ok nil_map.
Proof.
  intros Hpre Hpost. unfold Unmarshal, parse.
  rewrite (value_blank _ pre _ Hpre), value_null. cbn.
  replace (skipSpace post) with EmptyString; [done|].
  rewrite <- (sapp_empty_r post), skipSpace_blank by done. done.
Qed.

(** X7: a file that holds the JSON value [null], with or without white
    space around it, loads without an error and leaves the store with
    the nil map; in that state [Get] and [Delete] report every alias as
    not found, and every [Create] of a record panics on the assignment
    to the map, before anything is written. *)
Theorem load_null_file (Parse : string -> result Time) (w : World) (pre post : string) :
  os.ReadFile (disk w) (filePath (store w)) = Ok (pre +:+ "null" +:+ post) ->
  blank pre -> blank post ->
  let w' := withLinks w nil_map in
  load Parse w = (Returns None, w')
  /\ (forall alias, Get alias w' = (Returns (None, Some NotFound), w'))
  /\ (forall alias, Delete alias w' = (Returns (Some NotFound), w'))
  /\ (forall l, Create (Some l) w' = (Panics "assignment to entry in nil map", w')).
Proof.
  intros Hr Hpre Hpost w'. split; [|split; [|split]].
  - apply (load_file Parse w _ nil_map Hr); [|by apply Unmarshal_null].
    apply Nat.eqb_neq. rewrite !slength_app. cbn. lia.
  - intros alias. by rewrite Get_at.
  - intros alias. apply Delete_absent. apply exists_nil.
  - intros l. by apply Create_nil_map.
Qed.

Lemma load_null_file_witness :
  let w := mkWorld (store ghWorld) (healthy {["/links.json" := " null" +:+ String "010" EmptyString]}) in
  load rejects w = (Returns None, withLinks w nil_map)
  /\ Create (Some docs) (withLinks w nil_map)
     = (Panics "assignment to entry in nil map", withLinks w nil_map).
Proof.
  intros w.
  destruct (load_null_file rejects w " " (String "010" EmptyString)
              eq_refl eq_refl eq_refl) as (H1 & _ & _ & H4).
  split; [exact H1 | exact (H4 docs)].
Defined.

(** * The constructor and the watcher *)

Lemma Stat_present (d : os.Disk) (p : string) :
  is_Some (os.files d !! p) -> os.IsNotExist (os.Stat d p) = false.
Proof. intros [data H]. unfold os.Stat. by rewrite H. Qed.

Lemma Stat_missing (d : os.Disk) (p : string) :
  os.files d !! p = None -> os.IsNotExist (os.Stat d p) = true.
Proof. intros H. unfold os.Stat. by rewrite H. Qed.

Lemma ReadFile_present (d : os.Disk) (p data : string) :
  os.ReadFile d p = Ok data -> os.files d !! p = Some data.
Proof.
  unfold os.ReadFile. destruct (os.fault d), (os.files d !! p); congruence.
Qed.

(** X8: where there is no file at the path, or a file of length zero,
    [NewJSONStorage] returns a store with the empty (not the nil) map
    and no error, and it creates no file. *)
Theorem NewJSONStorage_no_data (Parse : string -> result Time) (p : string) (d : os.Disk) :
  os.files d !! p = None \/ os.ReadFile d p = Ok EmptyString ->
  NewJSONStorage Parse (Ok p) None d
  = (Returns (Some (mkStorage p (mk_map ∅)), None), d).
Proof.
  intros [H|H]; unfold NewJSONStorage.
  - by rewrite (Stat_missing d p H).
  - rewrite (Stat_present d p) by (by rewrite (ReadFile_present d p _ H)).
    cbn [negb]. run. by rewrite H.
Qed.

Lemma NewJSONStorage_no_data_witness :
  NewJSONStorage rejects (Ok "/links.json") None (healthy ∅)
  = (Returns (Some (store emptyWorld), None), healthy ∅).
Proof. apply (NewJSONStorage_no_data rejects). left. reflexivity. Defined.

(** X9: [NewJSONStorage] always returns, and never panics, with a
    store or with an error and never with both or neither; and the
    store it returns has the absolute path as its path. *)
Theorem NewJSONStorage_frame (Parse : string -> result Time) (abs : result string)
    (mkdir : option error) (d : os.Disk) :
  exists s err, (NewJSONStorage Parse abs mkdir d).1 = Returns (s, err)
    /\ (s = None <-> err <> None)
    /\ (forall st, s = Some st -> abs = Ok (filePath st)).
Proof.
  unfold NewJSONStorage. destruct abs as [p|e].
  2: { eexists _, _. split; [done|]. split; [split|]; done. }
  destruct mkdir as [e|].
  { eexists _, _. split; [done|]. split; [split|]; done. }
  destruct (negb _).
  2: { eexists _, _. split; [done|]. split; [split|]; [done..|]. by intros st [= <-]. }
  destruct (load_cases Parse (mkWorld (mkStorage p (mk_map ∅)) d)) as [[e ->]|[g ->]].
  - eexists _, _. split; [done|]. split; [split|]; done.
  - eexists _, _. split; [done|]. split; [split|]; [done..|]. by intros st [= <-].
Qed.

Lemma saveWithoutLock_fault (w w' : World) (r : outcome (option error)) :
  saveWithoutLock w = (r, w') -> os.fault (disk w') = os.fault (disk w).
Proof.
  run. destruct (MarshalIndent (links (store w))); [|by intros [= <- <-]].
  unfold os.WriteFile. destruct (os.fault (disk w)) eqn:Hf; intros [= <- <-]; done.
Qed.

(** X10: what a mutation wrote is what a new instance starts from.
    After a [Create], [Update], [Delete] or [Save] that returned no
    error on a healthy disk, [NewJSONStorage] on the same path returns
    a store whose map is the map in memory as the file keeps it,
    provided the records are valid. *)
Theorem reopen_after_mutation (Parse : string -> result Time) (w w' : World) :
  (exists l, Create l w = (Returns None, w'))
  \/ (exists l, Update l w = (Returns None, w'))
  \/ (exists alias, Delete alias w = (Returns None, w'))
  \/ Save w = (Returns None, w') ->
  os.fault (disk w) = os.Healthy ->
  validMapping (links (store w')) = true ->
  NewJSONStorage Parse (Ok (filePath (store w'))) None (disk w')
  = (Returns (Some (mkStorage (filePath (store w')) (persisted (links (store w')))), None),
     disk w').
Proof.
  intros H Hf Hv.
  assert (exists g, saveWithoutLock (withLinks w g) = (Returns None, w')) as [g Hs].
  { destruct H as [H|[H|[H|H]]].
    - apply mutation_runs_save. by left.
    - apply mutation_runs_save. right. by left.
    - apply mutation_runs_save. right. by right.
    - exists (links (store w)). by destruct w as [[p g] d]. }
  pose proof (saveWithoutLock_fault _ _ _ Hs) as Hf'. cbn [withLinks disk] in Hf'.
  rewrite Hf in Hf'.
  apply saveWithoutLock_success in Hs as (Hst & _ & data & Hm & Hfile).
  rewrite Hst in Hv |- *. cbn [withLinks store links filePath] in *.
  destruct (Unmarshal_MarshalIndent Parse g Hv) as (data' & Hm' & Hlen & Hu).
  rewrite Hm in Hm'. injection Hm' as <-.
  unfold NewJSONStorage. rewrite (Stat_present (disk w')) by (by rewrite Hfile).
  cbn [negb].
  rewrite (load_file Parse _ data (persisted g)); [done| |done..].
  cbn [disk store filePath]. unfold os.ReadFile. by rewrite Hf', Hfile.
Qed.

Lemma reopen_after_mutation_witness :
  exists w', Create (Some gh) emptyWorld = (Returns None, w')
    /\ NewJSONStorage rejects (Ok "/links.json") None (disk w')
       = (Returns (Some (mkStorage "/links.json" (mk_map {["gh" := Some gh]})), None),
          disk w').
Proof.
  eexists. split; [vm_compute; reflexivity|].
  apply (reopen_after_mutation rejects emptyWorld).
  - left. exists (Some gh). vm_compute. reflexivity.
  - reflexivity.
  - vm_compute. reflexivity.
Defined.

(** X11: an existing file that cannot be read, or whose text is not
    empty and does not parse, makes [NewJSONStorage] fail: it returns
    the error of [load] and no store. *)
Theorem NewJSONStorage_bad_file (Parse : string -> result Time) (p : string) (d : os.Disk)
    (e : error) :
  is_Some (os.files d !! p) ->
  os.ReadFile d p = Err e
  \/ (exists data, os.ReadFile d p = Ok data
        /\ (String.length data =? 0)%nat = false /\ Unmarshal Parse data = Err e) ->
  NewJSONStorage Parse (Ok p) None d = (Returns (None, Some e), d).
Proof.
  intros Hin H. unfold NewJSONStorage. rewrite (Stat_present d p Hin). cbn [negb]. run.
  destruct H as [->|(data & -> & -> & ->)]; done.
Qed.

Lemma NewJSONStorage_bad_file_witness :
  NewJSONStorage rejects (Ok "/links.json") None (healthy {["/links.json" := "{"]})
  = (Returns (None, Some SyntaxError), healthy {["/links.json" := "{"]}).
Proof.
  apply (NewJSONStorage_bad_file rejects).
  - by eexists.
  - right. exists "{". repeat split.
Defined.

Lemma Write_bit (op : Z) : (Z.land op fsnotify.Write =? fsnotify.Write) = Z.testbit op 1.
Proof.
  change fsnotify.Write with (2 ^ 1). destruct (Z.testbit op 1) eqn:Hb.
  - apply Z.eqb_eq. apply Z.bits_inj'. intros n Hn.
    rewrite Z.land_spec, Z.pow2_bits_eqb by lia.
    destruct (Z.eqb_spec 1 n) as [<-|]; [by rewrite Hb|by rewrite andb_false_r].
  - apply Z.eqb_neq. intros H. apply (f_equal (fun z => Z.testbit z 1)) in H.
    rewrite Z.land_spec, Hb in H. rewrite Z.pow2_bits_eqb in H by lia. discriminate.
Qed.

Lemma watchLoop_event (Parse : string -> result Time) (event : fsnotify.Event)
    (received : list Received) (w : World) :
  watchLoop Parse (FromEvents (Some event) :: received) w
  = if String.eqb (fsnotify.Name event) (filePath (store w)) && Z.testbit (fsnotify.Op event) 1
    then match load Parse w with
         | (Returns (Some err), w') =>
             match watchLoop Parse received w' with
             | (Returns logged, w'') =>
                 (Returns (log_Printf "Error reloading links: %v" [a_error err] :: logged), w'')
             | (Panics msg, w'') => (Panics msg, w'')
             end
         | (Returns None, w') => watchLoop Parse received w'
         | (Panics msg, w') => (Panics msg, w')
         end
    else watchLoop Parse received w.
Proof.
  cbn [watchLoop]. unfold mbind, mret, IO_bind, IO_ret, getPath. rewrite Write_bit.
  destruct (_ && _); [|done].
  destruct (load Parse w) as [[[err|]|msg] w']; done.
Qed.

Lemma watchLoop_error (Parse : string -> result Time) (err : error)
    (received : list Received) (w : World) :
  watchLoop Parse (FromErrors (Some err) :: received) w
  = match watchLoop Parse received w with
    | (Returns logged, w') => (Returns (log_Printf "Watcher error: %v" [a_error err] :: logged), w')
    | (Panics msg, w') => (Panics msg, w')
    end.
Proof. reflexivity. Qed.

Lemma watchLoop_returns (Parse : string -> result Time) (received : list Received) (w : World) :
  exists logged w', watchLoop Parse received w = (Returns logged, w')
    /\ disk w' = disk w /\ filePath (store w') = filePath (store w).
Proof.
  revert w. induction received as [|[[event|]|[err|]] received IH]; intros w;
    try (by eexists _, _).
  - rewrite watchLoop_event. destruct (_ && _); [|apply IH].
    destruct (load_cases Parse w) as [[e ->]|[g ->]].
    + destruct (IH w) as (logged & w' & -> & ?). by eexists _, _.
    + destruct (IH (withLinks w g)) as (logged & w' & -> & ?). by eexists _, _.
  - rewrite watchLoop_error. destruct (IH w) as (logged & w' & -> & ?). by eexists _, _.
Qed.

(** X12: whatever the channels deliver, and whatever the file holds,
    [watchFile] does not panic, so the goroutine does not take the
    process down; and in the state it has reached after the
    deliveries, whether it has returned by then or waits for more, the
    disk is the disk it started with (it writes nothing) and the store
    has the path it had. *)
Theorem watchFile_frame (Parse : string -> result Time) (Dir : string -> string)
    (newWatcher add : option error) (received : list Received) (w : World) :
  let r := watchFile Parse Dir newWatcher add received w in
  (forall msg, r.1 <> Panics msg)
  /\ disk r.2 = disk w
  /\ filePath (store r.2) = filePath (store w).
Proof.
  assert (exists logged w',
            watchFile Parse Dir newWatcher add received w = (Returns logged, w')
            /\ disk w' = disk w /\ filePath (store w') = filePath (store w))
    as (logged & w' & Hrun & Hdisk & Hpath).
  { unfold watchFile. destruct newWatcher as [e|]; [by eexists _, _|].
    unfold mbind, IO_bind, getPath. destruct add as [e|]; [by eexists _, _|].
    apply watchLoop_returns. }
  cbv zeta. rewrite Hrun. by repeat split.
Qed.

(** X13: the loop passes over every event that names another file or
    whose operations lack the write bit, whatever else the event
    carries: a file put in place by a rename, or created anew, is not
    read. *)
Theorem watchLoop_passes_over (Parse : string -> result Time)
    (received rest : list Received) (w : World) :
  forallb (passedOver (filePath (store w))) received = true ->
  watchLoop Parse (received ++ rest)%list w = watchLoop Parse rest w.
Proof.
  induction received as [|r received IH]; [done|].
  cbn [forallb]. intros [Hr Hrest]%andb_true_iff.
  destruct r as [[event|]|[err|]]; try discriminate.
  cbn [app]. rewrite watchLoop_event. cbn [passedOver] in Hr.
  apply negb_true_iff in Hr. rewrite Hr. by apply IH.
Qed.

Lemma watchLoop_passes_over_witness :
  let replaced := FromEvents (Some (fsnotify.mkEvent "/links.json" (Z.lor fsnotify.Create fsnotify.Chmod))) in
  let other := FromEvents (Some (fsnotify.mkEvent "/links.json.tmp" fsnotify.Write)) in
  watchLoop rejects [replaced; other] ghWorld = (Returns [], ghWorld).
Proof.
  intros replaced other.
  change [replaced; other] with ([replaced; other] ++ [])%list.
  rewrite (watchLoop_passes_over rejects [replaced; other] [] ghWorld); reflexivity.
Defined.

(** X14: once a channel is found closed the loop ends: what arrives
    after that has no effect and is not logged. *)
Theorem watchLoop_stops_at_close (Parse : string -> result Time)
    (received rest : list Received) (w : World) :
  watchLoop Parse (received ++ FromEvents None :: rest)%list w = watchLoop Parse received w
  /\ watchLoop Parse (received ++ FromErrors None :: rest)%list w = watchLoop Parse received w.
Proof.
  revert w. induction received as [|[[event|]|[err|]] received IH]; intros w; try done.
  - cbn [app]. rewrite !watchLoop_event. destruct (_ && _); [|apply IH].
    destruct (load Parse w) as [[[e|]|msg] w']; [|apply IH|done].
    destruct (IH w') as [-> ->]. done.
  - cbn [app]. rewrite !watchLoop_error. destruct (IH w) as [-> ->]. done.
Qed.

Lemma watchLoop_settled (Parse : string -> result Time) (received : list Received) (w : World)
    (data : string) (g : gomap (option Link)) :
  os.ReadFile (disk w) (filePath (store w)) = Ok data ->
  (String.length data =? 0)%nat = false ->
  Unmarshal Parse data = Ok g ->
  exists logged, watchLoop Parse received (withLinks w g) = (Returns logged, withLinks w g).
Proof.
  intros Hr Hlen Hu. induction received as [|[[event|]|[err|]] received IH];
    try (by eexists).
  - rewrite watchLoop_event. destruct (_ && _); [|apply IH].
    rewrite (load_file Parse (withLinks w g) data g Hr Hlen Hu).
    change (withLinks (withLinks w g) g) with (withLinks w g). apply IH.
  - rewrite watchLoop_error. destruct IH as [logged ->]. by eexists.
Qed.

(** X15: an edit made outside becomes visible.  When the file holds a
    text that parses, and a write event for the file arrives before
    any channel is closed, the map of the store after the loop is the
    map the file describes, whatever arrived before and after the
    event. *)
Theorem watchLoop_reloads (Parse : string -> result Time) (w : World) (data : string)
    (g : gomap (option Link)) (before after : list Received) (event : fsnotify.Event) :
  os.ReadFile (disk w) (filePath (store w)) = Ok data ->
  (String.length data =? 0)%nat = false ->
  Unmarshal Parse data = Ok g ->
  forallb delivered before = true ->
  fsnotify.Name event = filePath (store w) ->
  Z.testbit (fsnotify.Op event) 1 = true ->
  exists logged,
    watchLoop Parse (before ++ FromEvents (Some event) :: after)%list w
    = (Returns logged, withLinks w g).
Proof.
  intros Hr Hlen Hu Hbefore Hname Hbit.
  assert (forall w0, exists logged,
    watchLoop Parse (FromEvents (Some event) :: after) (withLinks w w0)
    = (Returns logged, withLinks w g)) as Hev.
  { intros w0. rewrite watchLoop_event. cbn [withLinks store filePath].
    rewrite Hname, String.eqb_refl, Hbit. cbn [andb].
    rewrite (load_file Parse (withLinks w w0) data g Hr Hlen Hu).
    change (withLinks (withLinks w w0) g) with (withLinks w g).
    by apply (watchLoop_settled Parse after w data g). }
  enough (forall w0, exists logged,
    watchLoop Parse (before ++ FromEvents (Some event) :: after)%list (withLinks w w0)
    = (Returns logged, withLinks w g)) as Hall.
  { specialize (Hall (links (store w))). by destruct w as [[p g0] d]. }
  induction before as [|[[ev|]|[err|]] before IH]; intros w0; try discriminate.
  - apply Hev.
  - cbn [app]. rewrite watchLoop_event. destruct (_ && _); [|by apply IH].
    destruct (load_cases Parse (withLinks w w0)) as [[e ->]|[g' ->]].
    + destruct (IH Hbefore w0) as [logged ->]. by eexists.
    + change (withLinks (withLinks w w0) g') with (withLinks w g'). by apply IH.
  - cbn [app]. rewrite watchLoop_error. destruct (IH Hbefore w0) as [logged ->]. by eexists.
Qed.

Lemma watchLoop_reloads_witness :
  let text := "{" +:+ server.quote +:+ "k" +:+ server.quote +:+ ": null}" in
  let w := mkWorld (store ghWorld) (healthy {["/links.json" := text]}) in
  exists logged,
    watchLoop rejects
      [FromErrors (Some SyntaxError);
       FromEvents (Some (fsnotify.mkEvent "/links.json" fsnotify.Write));
       FromEvents None] w
    = (Returns logged, withLinks w (mk_map {["k" := None]})).
Proof.
  intros text w.
  apply (watchLoop_reloads rejects w text (mk_map {["k" := None]})
           [FromErrors (Some SyntaxError)] [FromEvents None]
           (fsnotify.mkEvent "/links.json" fsnotify.Write));
    vm_compute; reflexivity.
Defined.

(** X16: a file that cannot be read, or whose text is not empty and
    does not parse, never disturbs the store: whatever the channels
    deliver, the whole state the loop has reached after the deliveries
    (the map, the path and the disk) is the state it started from. *)
Theorem watchLoop_bad_file (Parse : string -> result Time) (w : World) (e : error)
    (received : list Received) :
  os.ReadFile (disk w) (filePath (store w)) = Err e
  \/ (exists data, os.ReadFile (disk w) (filePath (store w)) = Ok data
        /\ (String.length data =? 0)%nat = false /\ Unmarshal Parse data = Err e) ->
  (watchLoop Parse received w).2 = w.
Proof.
  intros H.
  assert (load Parse w = (Returns (Some e), w)) as Hl.
  { run. destruct H as [->|(data & -> & -> & ->)]; done. }
  enough (exists logged, watchLoop Parse received w = (Returns logged, w)) as [logged ->];
    [done|].
  induction received as [|[[event|]|[err|]] received IH]; try (by eexists).
  - rewrite watchLoop_event. destruct (_ && _); [|apply IH].
    rewrite Hl. destruct IH as [logged ->]. by eexists.
  - rewrite watchLoop_error. destruct IH as [logged ->]. by eexists.
Qed.

Lemma watchLoop_bad_file_witness :
  let w := mkWorld (store ghWorld) (healthy {["/links.json" := "{"]}) in
  (watchLoop rejects [FromEvents (Some (fsnotify.mkEvent "/links.json" fsnotify.Write))] w).2
  = w.
Proof.
  intros w. apply (watchLoop_bad_file rejects w SyntaxError).
  right. exists "{". repeat split.
Defined.

(** * The handlers of the server *)

Ltac serve :=
  unfold handleRedirect, handleRootPage, handleInfo, Header_Set, Fprintf,
    http_Redirect, http_Error, respond, onStore;
  unfold mbind, mret, Handler_bind, Handler_ret; cbn [fst snd].

Lemma TrimPrefix_slash (alias : string) : TrimPrefix ("/" +:+ alias) "/" = alias.
Proof. rewrite sapp_cons, sapp_nil. unfold TrimPrefix. by destruct alias. Qed.

Lemma handleRedirect_lookup (ToLower : string -> string) (s : Server)
    (visit : list (string * option Link)) (alias : string) (w : World) (calls : list Call) :
  alias <> EmptyString ->
  handleRedirect ToLower s visit ("/" +:+ alias) (w, calls)
  = match entries (links (store w)) !! alias with
    | None => (Returns tt, (w, (calls ++ [missing s alias])%list))
    | Some None => (Panics "invalid memory address or nil pointer dereference", (w, calls))
    | Some (Some l) => (Returns tt, (w, (calls ++ [Redirected (URL l) StatusFound])%list))
    end.
Proof.
  intros Hne. unfold handleRedirect. rewrite TrimPrefix_slash.
  apply String.eqb_neq in Hne. rewrite Hne. serve. rewrite Get_at.
  destruct (entries (links (store w)) !! alias) as [[l|]|]; cbn; [done..|].
  unfold missing. by destruct (String.eqb (notFound s) EmptyString).
Qed.

(** X17: a request for the path of an alias the store has is answered
    by one call, the redirect (302 Found) to the URL of the record; the
    handler writes nothing else and leaves the store as it is. *)
Theorem handleRedirect_found (ToLower : string -> string) (s : Server)
    (visit : list (string * option Link)) (alias : string) (l : Link) (w : World)
    (calls : list Call) :
  alias <> EmptyString ->
  entries (links (store w)) !! alias = Some (Some l) ->
  handleRedirect ToLower s visit ("/" +:+ alias) (w, calls)
  = (Returns tt, (w, (calls ++ [Redirected (URL l) StatusFound])%list)).
Proof. intros Hne H. by rewrite handleRedirect_lookup, H. Qed.

Lemma handleRedirect_found_witness :
  handleRedirect (fun c => c) (NewServer 8080 EmptyString) [] "/docs" (twoLinks, [])
  = (Returns tt, (twoLinks, [Redirected "https://go.dev/doc?q=a&b" 302])).
Proof.
  apply (handleRedirect_found (fun c => c) (NewServer 8080 EmptyString) [] "docs" docs twoLinks []).
  - discriminate.
  - reflexivity.
Defined.

(** X18: a request for the path of an alias the store does not have
    is answered by one call: the redirect (302) to the not-found URL of
    the server where one is configured, and otherwise the error 404
    with a text that names the alias. *)
Theorem handleRedirect_missing (ToLower : string -> string) (s : Server)
    (visit : list (string * option Link)) (alias : string) (w : World) (calls : list Call) :
  alias <> EmptyString ->
  entries (links (store w)) !! alias = None ->
  handleRedirect ToLower s visit ("/" +:+ alias) (w, calls)
  = (Returns tt, (w, (calls ++ [missing s alias])%list)).
Proof. intros Hne H. by rewrite handleRedirect_lookup, H. Qed.

Lemma handleRedirect_missing_witness :
  handleRedirect (fun c => c) (NewServer 8080 EmptyString) [] "/nope" (twoLinks, [])
  = (Returns tt, (twoLinks, [Errored "Go link not found: nope" 404])).
Proof.
  apply (handleRedirect_missing (fun c => c) (NewServer 8080 EmptyString) [] "nope" twoLinks []).
  - discriminate.
  - reflexivity.
Defined.

(** X19: where the map holds a nil pointer under the alias, as it does
    after loading a file that gives the alias the value [null],
    the request makes the handler panic on reading the URL, before it
    has made any call on the writer. *)
Theorem handleRedirect_nil_entry (ToLower : string -> string) (s : Server)
    (visit : list (string * option Link)) (alias : string) (w : World) (calls : list Call) :
  alias <> EmptyString ->
  entries (links (store w)) !! alias = Some None ->
  handleRedirect ToLower s visit ("/" +:+ alias) (w, calls)
  = (Panics "invalid memory address or nil pointer dereference", (w, calls)).
Proof. intros Hne H. by rewrite handleRedirect_lookup, H. Qed.

Lemma handleRedirect_nil_entry_witness :
  handleRedirect (fun c => c) (NewServer 8080 EmptyString) [] "/k" (nilEntry, [])
  = (Panics "invalid memory address or nil pointer dereference", (nilEntry, [])).
Proof.
  apply (handleRedirect_nil_entry (fun c => c) (NewServer 8080 EmptyString) [] "k" nilEntry []).
  - discriminate.
  - reflexivity.
Defined.

Lemma List_visit (visit : list (string * option Link)) (w : World) :
  List visit w = (Returns visit.*2, w).
Proof. unfold List. by rewrite List_loop. Qed.

Lemma rangeOrder_length (g : gomap (option Link)) (visit : list (string * option Link)) :
  rangeOrder g visit -> length visit = size (entries g).
Proof. unfold rangeOrder. intros ->. by rewrite length_map_to_list. Qed.

(** X20: [handleInfo] answers with the content type and one page, and
    the number the page shows is the number of aliases of the map,
    whatever the order in which [List] met them. *)
Theorem handleInfo_counts (s : Server) (visit : list (string * option Link)) (w : World)
    (calls : list Call) :
  rangeOrder (links (store w)) visit ->
  handleInfo s visit (w, calls)
  = (Returns tt,
     (w, (calls ++ [SetHeader "Content-Type" "text/html; charset=utf-8";
                    Written (infoPage s (size (entries (links (store w)))))])%list)).
Proof.
  intros Hv. serve. rewrite List_visit. cbn [fst snd].
  rewrite length_fmap, (rangeOrder_length _ _ Hv), <- app_assoc. reflexivity.
Qed.

Lemma handleInfo_counts_witness :
  handleInfo (NewServer 8080 EmptyString) [("docs", Some docs); ("gh", Some gh)] (twoLinks, [])
  = (Returns tt,
     (twoLinks, [SetHeader "Content-Type" "text/html; charset=utf-8";
                 Written (infoPage (NewServer 8080 EmptyString) 2)])).
Proof.
  apply (handleInfo_counts (NewServer 8080 EmptyString) [("docs", Some docs); ("gh", Some gh)]
           twoLinks []).
  unfold rangeOrder. vm_compute. apply perm_swap.
Defined.

(** X21: with no alias in the map, the empty map or the nil map,
    [handleRootPage] writes the head of the page, the sentence that no
    links are available and the end of the page, and no tree. *)
Theorem handleRootPage_no_links (ToLower : string -> string) (s : Server)
    (visit : list (string * option Link)) (w : World) (calls : list Call) :
  entries (links (store w)) = ∅ ->
  rangeOrder (links (store w)) visit ->
  handleRootPage ToLower s visit (w, calls)
  = (Returns tt,
     (w, (calls ++ [SetHeader "Content-Type" "text/html; charset=utf-8";
                    Written (rootTop s);
                    Written "<p>No links available. Add some using the CLI tool.</p>";
                    Written rootEnd])%list)).
Proof.
  intros He Hv. unfold rangeOrder in Hv. rewrite He, map_to_list_empty in Hv.
  apply Permutation_nil_r in Hv as ->. serve. rewrite List_visit. cbn.
  by rewrite <- !app_assoc.
Qed.

Lemma handleRootPage_no_links_witness :
  exists calls, handleRootPage (fun c => c) (NewServer 8080 EmptyString) [] (emptyWorld, [])
                = (Returns tt, (emptyWorld, calls))
                /\ length calls = 4%nat.
Proof.
  eexists. split.
  - apply (handleRootPage_no_links (fun c => c) (NewServer 8080 EmptyString) [] emptyWorld []).
    + reflexivity.
    + unfold rangeOrder. reflexivity.
  - reflexivity.
Defined.

Lemma group_records (ToLower : string -> string) (ls : list Link)
    (categories : gmap string (list Link)) (st : World * list Call) :
  group ToLower (Some <$> ls) categories st = (Returns (filed ToLower ls categories), st).
Proof.
  revert categories. induction ls as [|r ls IH]; intros categories; [done|].
  cbn [fmap list_fmap group]. serve. cbn. destruct st as [w calls]. cbn.
  unfold mbind, Handler_bind in IH. rewrite IH. reflexivity.
Qed.

Lemma group_nil_pointer (ToLower : string -> string) (links : list (option Link))
    (categories : gmap string (list Link)) (st : World * list Call) :
  None ∈ links ->
  group ToLower links categories st
  = (Panics "invalid memory address or nil pointer dereference", st).
Proof.
  revert categories. induction links as [|[r|] links IH]; intros categories Hin.
  - by apply elem_of_nil in Hin.
  - apply elem_of_cons in Hin as [?|Hin]; [done|].
    cbn [group]. serve. destruct st as [w calls]. cbn. by apply IH.
  - cbn [group]. serve. by destruct st.
Qed.

Lemma group_state (ToLower : string -> string) (links : list (option Link))
    (categories : gmap string (list Link)) (st : World * list Call) :
  exists r, group ToLower links categories st = (r, st).
Proof.
  revert categories. induction links as [|[r|] links IH]; intros categories.
  - by eexists.
  - cbn [group]. serve. destruct st as [w calls]. cbn. apply IH.
  - cbn [group]. serve. destruct st. by eexists.
Qed.

Lemma linkLines_calls (isLastCat : bool) (catLinks : list Link) (w : World) (calls : list Call) :
  linkLines isLastCat catLinks (w, calls)
  = (Returns tt, (w, (calls ++ linkCalls isLastCat catLinks)%list)).
Proof.
  revert calls. induction catLinks as [|l catLinks IH]; intros calls.
  - cbn. by rewrite app_nil_r.
  - cbn [linkLines linkCalls]. serve.
    destruct isLastCat, catLinks as [|l' catLinks]; cbn [fst snd];
      rewrite IH, <- app_assoc; reflexivity.
Qed.

Lemma tree_calls (categories : gmap string (list Link)) (cats : list string) (w : World)
    (calls : list Call) :
  tree categories cats (w, calls)
  = (Returns tt,
     (w, (calls ++ treeCalls (fun cat => default [] (categories !! cat)) cats)%list)).
Proof.
  revert calls. induction cats as [|cat cats IH]; intros calls.
  - cbn. by rewrite app_nil_r.
  - cbn [tree treeCalls]. serve.
    destruct cats as [|cat' cats]; cbn [fst snd];
      rewrite linkLines_calls, IH, <- !app_assoc; reflexivity.
Qed.

Lemma handleRootPage_run (ToLower : string -> string) (s : Server)
    (visit : list (string * option Link)) (w : World) (calls : list Call) :
  handleRootPage ToLower s visit (w, calls)
  = let head := [SetHeader "Content-Type" "text/html; charset=utf-8"; Written (rootTop s)] in
    if (length visit =? 0)%nat then
      (Returns tt,
       (w, (calls ++ head
            ++ [Written "<p>No links available. Add some using the CLI tool.</p>";
                Written rootEnd])%list))
    else
      match group ToLower visit.*2 ∅ (w, (calls ++ head)%list) with
      | (Returns categories, _) =>
          (Returns tt,
           (w, (calls ++ head ++ [Written "<pre>"]
                ++ treeCalls (fun cat => default [] (categories !! cat))
                     (sort_Strings (map_to_list categories).*1)
                ++ [Written "</pre>"; Written rootEnd])%list))
      | (Panics msg, _) => (Panics msg, (w, (calls ++ head)%list))
      end.
Proof.
  serve. rewrite List_visit. cbn [fst snd]. rewrite length_fmap.
  destruct (length visit =? 0)%nat.
  { cbn. by rewrite <- !app_assoc. }
  rewrite <- !app_assoc. cbn [app].
  destruct (group_state ToLower visit.*2 ∅
              (w, (calls ++ [SetHeader "Content-Type" "text/html; charset=utf-8";
                             Written (rootTop s)])%list)) as [[categories|msg] ->]; [|done].
  cbn [fst snd]. rewrite tree_calls. cbn [fst snd]. by rewrite <- !app_assoc.
Qed.

(** X22: the handlers only read.  Whatever the request, the state of
    the store and the calls made before, each of [handleRedirect],
    [handleRootPage] and [handleInfo] leaves the store and the disk as
    they are, and the calls made before stay as and where they are;
    this holds as well when the handler panics. *)
Theorem handlers_append_only (ToLower : string -> string) (s : Server)
    (visit : list (string * option Link)) (path : string) :
  appendsOnly (handleRedirect ToLower s visit path)
  /\ appendsOnly (handleRootPage ToLower s visit)
  /\ appendsOnly (handleInfo s visit).
Proof.
  assert (appendsOnly (handleRootPage ToLower s visit)) as Hroot.
  { intros w calls. rewrite handleRootPage_run. cbv zeta.
    destruct (length visit =? 0)%nat; [by eexists _, _|].
    destruct (group _ _ _ _) as [[categories|msg] st]; by eexists _, _. }
  split; [|split; [done|]].
  - intros w calls. unfold handleRedirect.
    destruct (String.eqb (TrimPrefix path "/") EmptyString); [apply Hroot|].
    serve. rewrite Get_at. cbn [fst snd].
    destruct (entries (links (store w)) !! TrimPrefix path "/") as [[l|]|]; cbn.
    + by eexists _, _.
    + exists (Panics "invalid memory address or nil pointer dereference"), [].
      by rewrite app_nil_r.
    + destruct (negb _); by eexists _, _.
  - intros w calls. serve. rewrite List_visit. cbn [fst snd].
    rewrite <- app_assoc. by eexists _, _.
Qed.

(** X23: where the map holds a nil pointer under some alias,
    [handleRootPage] panics while it files the links by category:
    the content type and the head of the page are written, and nothing
    after them. *)
Theorem handleRootPage_nil_entry (ToLower : string -> string) (s : Server)
    (visit : list (string * option Link)) (w : World) (calls : list Call) (k : string) :
  entries (links (store w)) !! k = Some None ->
  rangeOrder (links (store w)) visit ->
  handleRootPage ToLower s visit (w, calls)
  = (Panics "invalid memory address or nil pointer dereference",
     (w, (calls ++ [SetHeader "Content-Type" "text/html; charset=utf-8";
                    Written (rootTop s)])%list)).
Proof.
  intros Hk Hv. rewrite handleRootPage_run. cbv zeta.
  assert ((k, None) ∈ visit) as Hin.
  { unfold rangeOrder in Hv. rewrite Hv. by apply elem_of_map_to_list. }
  destruct visit as [|kv visit]; [by apply elem_of_nil in Hin|]. cbn [length Nat.eqb].
  rewrite group_nil_pointer; [done|].
  apply list_elem_of_fmap. by exists (k, None).
Qed.

Lemma handleRootPage_nil_entry_witness :
  exists calls,
    handleRootPage (fun c => c) (NewServer 8080 EmptyString) [("k", None)] (nilEntry, [])
    = (Panics "invalid memory address or nil pointer dereference", (nilEntry, calls))
    /\ length calls = 2%nat.
Proof.
  eexists. split.
  - apply (handleRootPage_nil_entry (fun c => c) (NewServer 8080 EmptyString) [("k", None)]
             nilEntry [] "k").
    + reflexivity.
    + unfold rangeOrder. vm_compute. reflexivity.
  - reflexivity.
Defined.

Lemma filed_lookup (ToLower : string -> string) (ls : list Link)
    (categories : gmap string (list Link)) (cat : string) :
  default [] (filed ToLower ls categories !! cat)
  = (default [] (categories !! cat) ++ under ToLower cat ls)%list
  /\ (is_Some (filed ToLower ls categories !! cat)
      <-> is_Some (categories !! cat) \/ under ToLower cat ls <> []).
Proof.
  revert categories. induction ls as [|r ls IH]; intros categories.
  { cbn. rewrite app_nil_r. split; [done|]. split; [by left|]. by intros [?|?]. }
  unfold under in *. rewrite filter_cons. cbn [filed foldl].
  change (foldl _ ?m ls) with (filed ToLower ls m).
  destruct (IH (<[categoryOf ToLower r :=
                    (default [] (categories !! categoryOf ToLower r) ++ [r])%list]> categories))
    as [-> ->].
  destruct (decide (categoryOf ToLower r = cat)) as [<-|Hne].
  - rewrite lookup_insert_eq. cbn [default id]. rewrite <- app_assoc. split; [done|].
    split; intros _; [by right|]. left. by eexists.
  - rewrite lookup_insert_ne by done. done.
Qed.

Lemma filed_under (ToLower : string -> string) (ls : list Link) (cat : string) :
  default [] (filed ToLower ls ∅ !! cat) = under ToLower cat ls.
Proof. destruct (filed_lookup ToLower ls ∅ cat) as [-> _]. by rewrite lookup_empty. Qed.

Lemma filed_keys (ToLower : string -> string) (ls : list Link) (cat : string) :
  cat ∈ (map_to_list (filed ToLower ls ∅)).*1
  <-> exists l, l ∈ ls /\ categoryOf ToLower l = cat.
Proof.
  rewrite list_elem_of_fmap. split.
  - intros ([c x] & -> & Hin%elem_of_map_to_list). cbn.
    assert (is_Some (filed ToLower ls ∅ !! c)) as Hs by (by eexists).
    apply filed_lookup in Hs as [[? Hs]|Hs]; [by rewrite lookup_empty in Hs|].
    destruct (under ToLower c ls) as [|l tail] eqn:Hu; [done|].
    assert (l ∈ under ToLower c ls) as Hl by (rewrite Hu; apply elem_of_cons; by left).
    apply list_elem_of_filter in Hl as [? ?]. by exists l.
  - intros (l & Hl & Hc).
    assert (is_Some (filed ToLower ls ∅ !! cat)) as [x Hx].
    { apply filed_lookup. right. intros Hu.
      assert (l ∈ under ToLower cat ls) as Hin by (by apply list_elem_of_filter).
      rewrite Hu in Hin. by apply elem_of_nil in Hin. }
    exists (cat, x). split; [done|]. by apply elem_of_map_to_list.
Qed.

Lemma sort_Strings_Permutation (a b : list string) :
  a ≡ₚ b -> sort_Strings a = sort_Strings b.
Proof.
  intros H. unfold sort_Strings.
  apply (Sorted_unique String.le); [apply Sorted_merge_sort, _..|].
  by rewrite !merge_sort_Permutation.
Qed.

Lemma byAlias_trans : Transitive byAlias.
Proof. intros a b c. unfold byAlias. apply transitivity. Qed.

Lemma byAlias_total : Total byAlias.
Proof. intros a b. unfold byAlias. apply total, _. Qed.

Lemma sort_Slice_Permutation (a b : list Link) :
  a ≡ₚ b ->
  (forall x y, x ∈ a -> y ∈ a -> Alias x = Alias y -> x = y) ->
  sort_Slice a = sort_Slice b.
Proof.
  intros H Hinj. unfold sort_Slice.
  pose proof byAlias_trans as Htrans. pose proof byAlias_total as Htotal.
  apply (Sorted_unique_strong byAlias); [|apply Sorted_merge_sort, _..|].
  - intros x y Hx Hy Hxy Hyx. rewrite merge_sort_Permutation in Hx, Hy.
    rewrite <- H in Hy. apply Hinj; [done..|].
    by apply (anti_symm String.le).
  - by rewrite !merge_sort_Permutation.
Qed.

Lemma treeCalls_ext (f g : string -> list Link) (cats : list string) :
  (forall cat, cat ∈ cats -> sort_Slice (f cat) = sort_Slice (g cat)) ->
  treeCalls f cats = treeCalls g cats.
Proof.
  induction cats as [|cat cats IH]; [done|]. intros H. cbn [treeCalls].
  rewrite (H cat) by (apply elem_of_cons; by left).
  rewrite IH; [done|]. intros c Hc. apply H. apply elem_of_cons. by right.
Qed.

Lemma linkCalls_elem (isLastCat : bool) (catLinks : list Link) (l : Link) :
  l ∈ catLinks -> exists lead, Written (linkLine lead l) ∈ linkCalls isLastCat catLinks.
Proof.
  induction catLinks as [|x catLinks IH]; [by intros ?%elem_of_nil|].
  intros [->|Hin]%elem_of_cons; cbn [linkCalls].
  - eexists. apply elem_of_cons. by left.
  - destruct (IH Hin) as [lead Hl]. exists lead. apply elem_of_cons. by right.
Qed.

Lemma treeCalls_elem (f : string -> list Link) (cats : list string) (cat : string) (l : Link) :
  cat ∈ cats -> l ∈ f cat ->
  exists lead, Written (linkLine lead l) ∈ treeCalls f cats
    /\ exists lead', Written (lead' +:+ cat +:+ nl) ∈ treeCalls f cats.
Proof.
  intros Hc Hl. induction cats as [|c cats IH]; [by apply elem_of_nil in Hc|].
  cbn [treeCalls]. apply elem_of_cons in Hc as [<-|Hc].
  - destruct (linkCalls_elem (match cats with [] => true | _ => false end)
                (sort_Slice (f cat)) l) as [lead Hin].
    { unfold sort_Slice. by rewrite merge_sort_Permutation. }
    exists lead. split.
    + apply elem_of_app. left. apply elem_of_cons. by right.
    + eexists. apply elem_of_app. left. apply elem_of_cons. by left.
  - destruct (IH Hc) as (lead & Hin & lead' & Hin'). exists lead. split.
    + apply elem_of_app. by right.
    + exists lead'. apply elem_of_app. by right.
Qed.

Lemma records_all (g : gomap (option Link)) (visit : list (string * option Link)) :
  keyConsistent g -> rangeOrder g visit ->
  visit.*2 = Some <$> recordsOf visit
  /\ forall l, l ∈ recordsOf visit <-> entries g !! Alias l = Some (Some l).
Proof.
  intros Hk Hv. unfold rangeOrder in Hv.
  assert (forall kv, kv ∈ visit -> exists l, kv = (Alias l, Some l)) as Hall.
  { intros [k p] Hin. rewrite Hv in Hin. apply elem_of_map_to_list in Hin.
    destruct (Hk k p Hin) as (l & -> & <-). by exists l. }
  split.
  - clear Hv. unfold recordsOf. induction visit as [|kv visit IH]; [done|].
    destruct (Hall kv) as [l ->]; [apply elem_of_cons; by left|].
    cbn. f_equal. apply IH. intros kv Hin. apply Hall. apply elem_of_cons. by right.
  - intros l. unfold recordsOf. rewrite list_elem_of_omap. split.
    + intros ([k p] & Hin & Hp). cbn in Hp. subst p.
      destruct (Hall _ Hin) as [l' [= -> <-]].
      rewrite Hv in Hin. by apply elem_of_map_to_list in Hin.
    + intros Hl. exists (Alias l, Some l). split; [|done].
      rewrite Hv. by apply elem_of_map_to_list.
Qed.

Lemma handleRootPage_records (ToLower : string -> string) (s : Server)
    (visit : list (string * option Link)) (w : World) (calls : list Call) :
  keyConsistent (links (store w)) -> rangeOrder (links (store w)) visit ->
  visit <> [] ->
  handleRootPage ToLower s visit (w, calls)
  = (Returns tt,
     (w, (calls ++ [SetHeader "Content-Type" "text/html; charset=utf-8"; Written (rootTop s)]
          ++ [Written "<pre>"]
          ++ treeCalls (fun cat => under ToLower cat (recordsOf visit))
               (sort_Strings (map_to_list (filed ToLower (recordsOf visit) ∅)).*1)
          ++ [Written "</pre>"; Written rootEnd])%list)).
Proof.
  intros Hk Hv Hne. rewrite handleRootPage_run. cbv zeta.
  destruct visit as [|kv visit]; [done|]. cbn [length Nat.eqb].
  destruct (records_all _ _ Hk Hv) as [-> _]. rewrite group_records.
  rewrite (treeCalls_ext _ (fun cat => under ToLower cat (recordsOf (kv :: visit))));
    [done|]. intros cat _. by rewrite filed_under.
Qed.

(** X24: the page does not depend on the order in which the map is
    walked.  For a map in which every key leads to a record that
    carries the key as its alias, [handleRootPage] makes the same
    calls, with the same texts, for any two orders in which [List] and
    the loops over the categories may meet the entries. *)
Theorem handleRootPage_order (ToLower : string -> string) (s : Server)
    (visit visit' : list (string * option Link)) (w : World) (calls : list Call) :
  keyConsistent (links (store w)) ->
  rangeOrder (links (store w)) visit ->
  rangeOrder (links (store w)) visit' ->
  handleRootPage ToLower s visit (w, calls) = handleRootPage ToLower s visit' (w, calls).
Proof.
  intros Hk Hv Hv'.
  assert (visit ≡ₚ visit') as Hp by (unfold rangeOrder in *; by rewrite Hv, Hv').
  destruct visit as [|kv visit].
  { by apply Permutation_nil in Hp as ->. }
  assert (visit' <> []) as Hne'.
  { intros ->. by apply Permutation_nil_r in Hp. }
  rewrite !handleRootPage_records by done.
  assert (recordsOf (kv :: visit) ≡ₚ recordsOf visit') as Hr
    by (unfold recordsOf; by rewrite Hp).
  set (ls := recordsOf (kv :: visit)) in *. set (ls' := recordsOf visit') in *.
  assert (sort_Strings (map_to_list (filed ToLower ls ∅)).*1
          = sort_Strings (map_to_list (filed ToLower ls' ∅)).*1) as ->.
  { apply sort_Strings_Permutation.
    apply NoDup_Permutation; [apply NoDup_fst_map_to_list..|].
    intros cat. rewrite !filed_keys. by setoid_rewrite Hr. }
  rewrite (treeCalls_ext _ (fun cat => under ToLower cat ls')); [done|]. intros cat _.
  apply sort_Slice_Permutation.
  - unfold under. by rewrite Hr.
  - intros x y [_ Hx]%list_elem_of_filter [_ Hy]%list_elem_of_filter Ha.
    apply (records_all _ _ Hk Hv) in Hx, Hy. rewrite Ha in Hx. congruence.
Qed.

Lemma handleRootPage_order_witness :
  handleRootPage (fun c => c) (NewServer 8080 EmptyString)
    [("gh", Some gh); ("docs", Some docs)] (twoLinks, [])
  = handleRootPage (fun c => c) (NewServer 8080 EmptyString)
      [("docs", Some docs); ("gh", Some gh)] (twoLinks, []).
Proof.
  apply (handleRootPage_order (fun c => c) (NewServer 8080 EmptyString)).
  - apply (keyConsistent_insert _ docs), keyConsistent_gh.
  - unfold rangeOrder. vm_compute. reflexivity.
  - unfold rangeOrder. vm_compute. apply perm_swap.
Defined.

(** X25: every link of the map is on the page.  For a map in which
    every key leads to a record that carries the key as its alias,
    [handleRootPage] returns, and among the texts it writes are a line
    for the link, with its alias and its URL, and a line for the
    category the link is filed under. *)
Theorem handleRootPage_lists_every_link (ToLower : string -> string) (s : Server)
    (visit : list (string * option Link)) (w : World) (calls : list Call)
    (k : string) (l : Link) :
  keyConsistent (links (store w)) ->
  rangeOrder (links (store w)) visit ->
  entries (links (store w)) !! k = Some (Some l) ->
  exists more lead lead',
    handleRootPage ToLower s visit (w, calls) = (Returns tt, (w, (calls ++ more)%list))
    /\ Written (linkLine lead l) ∈ more
    /\ Written (lead' +:+ categoryOf ToLower l +:+ nl) ∈ more.
Proof.
  intros Hk Hv Hl.
  assert (l ∈ recordsOf visit) as Hin.
  { apply (records_all _ _ Hk Hv). destruct (Hk k _ Hl) as (l' & [= <-] & <-). done. }
  assert (visit <> []) as Hne.
  { intros ->. by apply elem_of_nil in Hin. }
  rewrite handleRootPage_records by done.
  destruct (treeCalls_elem (fun cat => under ToLower cat (recordsOf visit))
              (sort_Strings (map_to_list (filed ToLower (recordsOf visit) ∅)).*1)
              (categoryOf ToLower l) l) as (lead & Hlead & lead' & Hlead').
  { unfold sort_Strings. rewrite merge_sort_Permutation. apply filed_keys. by exists l. }
  { by apply list_elem_of_filter. }
  eexists _, lead, lead'. split; [done|].
  split; (apply elem_of_app; right; apply elem_of_app; right; apply elem_of_app; by left).
Qed.

Lemma handleRootPage_lists_every_link_witness :
  exists more lead lead',
    handleRootPage (fun c => c) (NewServer 8080 EmptyString)
      [("gh", Some gh); ("docs", Some docs)] (twoLinks, [])
    = (Returns tt, (twoLinks, more))
    /\ Written (linkLine lead docs) ∈ more
    /\ Written (lead' +:+ "dev" +:+ nl) ∈ more.
Proof.
  apply (handleRootPage_lists_every_link (fun c => c) (NewServer 8080 EmptyString)
           [("gh", Some gh); ("docs", Some docs)] twoLinks [] "docs" docs).
  - apply (keyConsistent_insert _ docs), keyConsistent_gh.
  - unfold rangeOrder. vm_compute. reflexivity.
  - reflexivity.
Defined.
